(** * Self-service database provisioning: the request lifecycle

    A shallow embedding of [src/provisioning_api.py] (class
    [ProvisioningService]) and the properties of its request / approval
    workflow.

    The two SQL tables are the state.  [db_requests] has [request_id] as
    its PRIMARY KEY and is a finite map from the key to the remaining
    columns; [provisioned_databases] has a SERIAL key and is the list of
    its rows in insertion order together with the sequence counter.
    Every [cursor.execute] is one function on that state: the connection
    runs with [autocommit = True], so each statement is committed on its
    own and there is no enclosing transaction.

    What the program draws from its environment is passed in explicitly:
    the value of [NOW()] for each statement that evaluates it, the
    result of each [uuid.uuid4()], and, in the statement-level semantics,
    whether the store accepts a statement.  The key constraints and the
    column widths of the two tables are part of the statements; any other
    refusal (a lost connection) is that last input. *)

From stdpp Require Import gmap strings list fin_maps sorting.
From Stdlib Require Import ZArith.

Local Open Scope Z_scope.

(** ** Request and response bodies (the pydantic models) *)

Record DatabaseRequest := {
  team_name : string;
  db_type : string;      (* postgres, mysql, redis *)
  environment : string;  (* dev, staging, prod *)
  size : string;         (* small, medium, large *)
  purpose : string
}.

Record ApprovalAction := {
  request_id : string;
  action : string;       (* approve, reject *)
  approver : string;
  notes : option string  (* Optional[str] = None *)
}.

(** The dict returned by [create_request] and [process_approval]:
    keys ['request_id'], ['status'], ['message']. *)
Record response := {
  resp_request_id : string;
  resp_status : string;
  resp_message : string
}.

(** What a call can raise. *)
Inductive exn :=
| HTTPException (status_code : Z) (detail : string)
| TypeError                     (* unpacking the [None] of an empty [fetchone()] *)
| StorageError (what : string). (* a psycopg2 error raised by [cursor.execute] *)

(** The two client errors of [process_approval]. *)
Definition NotFound : exn := HTTPException 404 "Request not found".
Definition InvalidTransition (current : string) : exn :=
  HTTPException 400 ("Request already " +:+ current).

(** ** The tables *)

(** A row of [db_requests] without its key.  Timestamps are integers
    (any fixed resolution); a nullable column that the program leaves
    unset is an [option]. *)
Record db_requests_row := {
  r_team_name : string;
  r_db_type : string;
  r_environment : string;
  r_size : string;
  r_purpose : string;
  r_status : string;
  r_created_at : Z;
  r_approved_at : option Z;
  r_provisioned_at : option Z;
  r_approver : option string;
  r_approval_notes : option string
}.

(** A row of [provisioned_databases].  [estimated_cost] is
    [DECIMAL(10,2)]: the value in hundredths, so [500.00] is [50000]. *)
Record provisioned_databases_row := {
  d_db_id : Z;
  d_request_id : string;
  d_db_name : string;
  d_db_type : string;
  d_environment : string;
  d_host : string;
  d_port : Z;
  d_estimated_cost : Z;
  d_status : string;
  d_created_at : Z
}.

Record database := {
  db_requests : gmap string db_requests_row;
  provisioned_databases : list provisioned_databases_row;
  db_id_seq : Z   (* last value handed out by the SERIAL sequence *)
}.

(** The state right after [setup_tables] on a fresh store. *)
Definition empty_database : database :=
  {| db_requests := ∅; provisioned_databases := []; db_id_seq := 0 |}.

(** ** Cost and port derivation (lines 204-219) *)

Definition cost_map : gmap string Z :=
  <["small" := 5000]> (<["medium" := 15000]> (<["large" := 50000]> ∅)).

Definition port_map : gmap string Z :=
  <["postgres" := 5432]> (<["mysql" := 3306]> (<["redis" := 6379]> ∅)).

(** [cost_map.get(size, 100.00)] *)
Definition estimated_cost (size : string) : Z := default 10000 (cost_map !! size).

(** [port_map.get(db_type, 5432)] *)
Definition port (db_type : string) : Z := default 5432 (port_map !! db_type).

Definition derive (size db_type : string) : Z * Z :=
  (estimated_cost size, port db_type).

Definition host : string := "db-cluster.example.com".

(** ** Column widths *)

Fixpoint all_spaces (s : string) : bool :=
  match s with
  | EmptyString => true
  | String c s' => Ascii.eqb c Ascii.Space && all_spaces s'
  end.

(** Storing [s] in a [VARCHAR(n)] column.  A longer value is refused,
    unless what exceeds [n] characters is spaces only: then it is cut to
    [n] characters.  One character of the Python string is one character
    here. *)
Definition varchar (n : nat) (s : string) : option string :=
  if decide (String.length s ≤ n)%nat then Some s
  else if all_spaces (String.substring n (String.length s - n) s)
       then Some (String.substring 0 n s)
       else None.

(** The column accepts the value. *)
Definition fits (n : nat) (s : string) : Prop := is_Some (varchar n s).

Definition too_long : exn :=
  StorageError "value too long for type character varying".

(** ** The SQL statements *)

(** [INSERT INTO db_requests (...) VALUES (..., 'pending')]; [created_at]
    takes its default [NOW()], the other columns stay NULL.  The five
    [VARCHAR] values must fit ([request_id] 36, [team_name] 100,
    [db_type], [environment], [size] 20; [purpose] is [TEXT]); a second
    row with the same key violates the PRIMARY KEY. *)
Definition insert_request (db : database) (id : string) (request : DatabaseRequest)
    (now : Z) : exn + database :=
  match varchar 36 id, varchar 100 (team_name request),
        varchar 20 (db_type request), varchar 20 (environment request),
        varchar 20 (size request) with
  | Some id, Some team, Some ty, Some env, Some sz =>
    match db_requests db !! id with
    | Some _ => inl (StorageError "duplicate key value violates unique constraint")
    | None =>
      inr {| db_requests :=
               <[id := {| r_team_name := team;
                          r_db_type := ty;
                          r_environment := env;
                          r_size := sz;
                          r_purpose := purpose request;
                          r_status := "pending";
                          r_created_at := now;
                          r_approved_at := None;
                          r_provisioned_at := None;
                          r_approver := None;
                          r_approval_notes := None |}]> (db_requests db);
             provisioned_databases := provisioned_databases db;
             db_id_seq := db_id_seq db |}
    end
  | _, _, _, _, _ => inl too_long
  end.

(** [SELECT status FROM db_requests WHERE request_id = %s], [fetchone()] *)
Definition select_status (db : database) (id : string) : option string :=
  r_status <$> db_requests db !! id.

(** [UPDATE db_requests SET status = %s, approver = %s, approval_notes = %s,
    approved_at = NOW() WHERE request_id = %s] *)
Definition decided (new_status approver : string) (notes : option string) (now : Z)
    (r : db_requests_row) : db_requests_row :=
  {| r_team_name := r_team_name r;
     r_db_type := r_db_type r;
     r_environment := r_environment r;
     r_size := r_size r;
     r_purpose := r_purpose r;
     r_status := new_status;
     r_created_at := r_created_at r;
     r_approved_at := Some now;
     r_provisioned_at := r_provisioned_at r;
     r_approver := Some approver;
     r_approval_notes := notes |}.

(** [approver] is [VARCHAR(100)], [approval_notes] is [TEXT]; the status
    written is one of two constants within [VARCHAR(20)]. *)
Definition update_decision (db : database) (new_status approver : string)
    (notes : option string) (now : Z) (id : string) : exn + database :=
  match varchar 100 approver with
  | None => inl too_long
  | Some approver =>
    inr {| db_requests :=
             alter (decided new_status approver notes now) id (db_requests db);
           provisioned_databases := provisioned_databases db;
           db_id_seq := db_id_seq db |}
  end.

(** [SELECT team_name, db_type, environment, size FROM db_requests
    WHERE request_id = %s], [fetchone()] *)
Definition select_details (db : database) (id : string)
    : option (string * string * string * string) :=
  (λ r, (r_team_name r, r_db_type r, r_environment r, r_size r)) <$> db_requests db !! id.

(** [INSERT INTO provisioned_databases (...) VALUES (..., 'active')];
    [db_id] is the next value of the sequence and [created_at] is
    [NOW()].  [db_name] is [VARCHAR(100)]; the other text values are the
    key, which the SELECTs before have matched with a stored key of the
    same width, the type and environment just read from columns of the
    same widths, and two constants within theirs.  [request_id]
    REFERENCES [db_requests]. *)
Definition insert_provisioned_database (db : database)
    (id db_name db_type env host : string) (port estimated_cost : Z) (now : Z)
    : exn + database :=
  match varchar 100 db_name with
  | None => inl too_long
  | Some db_name =>
    match db_requests db !! id with
    | None => inl (StorageError "violates foreign key constraint")
    | Some _ =>
      inr {| db_requests := db_requests db;
             provisioned_databases :=
               provisioned_databases db ++
               [ {| d_db_id := db_id_seq db + 1;
                    d_request_id := id;
                    d_db_name := db_name;
                    d_db_type := db_type;
                    d_environment := env;
                    d_host := host;
                    d_port := port;
                    d_estimated_cost := estimated_cost;
                    d_status := "active";
                    d_created_at := now |} ];
             db_id_seq := db_id_seq db + 1 |}
    end
  end.

(** [UPDATE db_requests SET status = 'provisioned', provisioned_at = NOW()
    WHERE request_id = %s] *)
Definition provisioned (now : Z) (r : db_requests_row) : db_requests_row :=
  {| r_team_name := r_team_name r;
     r_db_type := r_db_type r;
     r_environment := r_environment r;
     r_size := r_size r;
     r_purpose := r_purpose r;
     r_status := "provisioned";
     r_created_at := r_created_at r;
     r_approved_at := r_approved_at r;
     r_provisioned_at := Some now;
     r_approver := r_approver r;
     r_approval_notes := r_approval_notes r |}.

Definition update_provisioned (db : database) (now : Z) (id : string) : database :=
  {| db_requests := alter (provisioned now) id (db_requests db);
     provisioned_databases := provisioned_databases db;
     db_id_seq := db_id_seq db |}.

(** ** The operations

    Each call running alone and to its end; a statement is refused only
    for a key or for a value wider than its column. *)

(** What one [process_approval] call reads from its environment: [NOW()]
    in the decision UPDATE, in the INSERT and in the final UPDATE, and
    [uuid.uuid4().hex]. *)
Record approval_env := {
  t_decision : Z;
  t_insert : Z;
  t_provisioned : Z;
  uuid4_hex : string
}.

(** [f"{team}_{env}_{db_type}_{uuid.uuid4().hex[:8]}"] *)
Definition db_name_of (team env db_type hex : string) : string :=
  team +:+ "_" +:+ env +:+ "_" +:+ db_type +:+ "_" +:+ String.substring 0 8 hex.

(** Lines 91-109. *)
Definition create_request (db : database) (request : DatabaseRequest)
    (uuid4_str : string) (now : Z) : database * (exn + response) :=
  let request_id := uuid4_str in
  match insert_request db request_id request now with
  | inl e => (db, inl e)
  | inr db' =>
    (db', inr {| resp_request_id := request_id;
                 resp_status := "pending";
                 resp_message := "Request submitted for approval" |})
  end.

(** Lines 191-237. *)
Definition _provision_database (db : database) (request_id : string)
    (e : approval_env) : database * (exn + unit) :=
  match select_details db request_id with
  | None => (db, inl TypeError)
  | Some (team, db_type, env, size) =>
    let db_name := db_name_of team env db_type (uuid4_hex e) in
    let '(estimated_cost, port) := derive size db_type in
    match insert_provisioned_database db request_id db_name db_type env host
            port estimated_cost (t_insert e) with
    | inl err => (db, inl err)
    | inr db1 => (update_provisioned db1 (t_provisioned e) request_id, inr ())
    end
  end.

(** [new_status = 'approved' if approval.action == 'approve' else 'rejected'] *)
Definition new_status (approval : ApprovalAction) : string :=
  if decide (action approval = "approve") then "approved" else "rejected".

(** The dict built at lines 185-189. *)
Definition decision_response (approval : ApprovalAction) : response :=
  {| resp_request_id := request_id approval;
     resp_status := new_status approval;
     resp_message := "Request " +:+ new_status approval +:+ " successfully" |}.

(** Lines 147-189. *)
Definition process_approval (db : database) (approval : ApprovalAction)
    (e : approval_env) : database * (exn + response) :=
  match select_status db (request_id approval) with
  | None => (db, inl NotFound)
  | Some result =>
    if decide (result ≠ "pending") then (db, inl (InvalidTransition result))
    else
      match update_decision db (new_status approval) (approver approval)
              (notes approval) (t_decision e) (request_id approval) with
      | inl err => (db, inl err)
      | inr db1 =>
        if decide (action approval = "approve") then
          match _provision_database db1 (request_id approval) e with
          | (db2, inl err) => (db2, inl err)
          | (db2, inr _) => (db2, inr (decision_response approval))
          end
        else (db1, inr (decision_response approval))
      end
  end.

(** ** Listing requests (lines 111-145) *)

(** One element of the list [get_requests] returns. *)
Record request_summary := {
  s_request_id : string;
  s_team_name : string;
  s_db_type : string;
  s_environment : string;
  s_size : string;
  s_status : string;
  s_created_at : Z;
  s_purpose : string
}.

Definition summary (kr : string * db_requests_row) : request_summary :=
  {| s_request_id := kr.1;
     s_team_name := r_team_name kr.2;
     s_db_type := r_db_type kr.2;
     s_environment := r_environment kr.2;
     s_size := r_size kr.2;
     s_status := r_status kr.2;
     s_created_at := r_created_at kr.2;
     s_purpose := r_purpose kr.2 |}.

(** [ORDER BY created_at DESC]: [x] may come before [y]. *)
Definition newer_first (x y : string * db_requests_row) : Prop :=
  r_created_at y.2 ≤ r_created_at x.2.

Global Instance newer_first_dec : RelDecision newer_first.
Proof. intros x y. unfold newer_first. apply _. Defined.

Definition order_by_created_at_desc
    (rows : list (string * db_requests_row)) : list (string * db_requests_row) :=
  merge_sort newer_first rows.

(** Python's truth value of an [Optional[str]]: [None] and [''] are false. *)
Definition truthy (status : option string) : option string :=
  match status with
  | Some s => if decide (s = "") then None else Some s
  | None => None
  end.

(** The function only SELECTs; like the other operations it is given the
    state and hands it back. *)
Definition get_requests (db : database) (status : option string)
    : database * list request_summary :=
  let rows := map_to_list (db_requests db) in
  match truthy status with
  | Some s =>
    (db, summary <$> order_by_created_at_desc
                       (filter (λ kr, r_status kr.2 = s) rows))
  | None =>
    (db, summary <$> take 50 (order_by_created_at_desc rows))
  end.

(** The order of the summaries [get_requests] returns. *)
Definition newer_first_summary (x y : request_summary) : Prop :=
  s_created_at y ≤ s_created_at x.

(** ** Statement-level execution of [process_approval]

    The same code, one [cursor.execute] at a time.  A [pc] is the point a
    call has reached; [step] runs its next statement on the shared state.
    Each step is given the [NOW()] of its statement and whether the store
    can be reached for it ([accepted = false]: [cursor.execute] raises
    for a reason outside the tables); a statement also raises for a value
    wider than its column.  Statements committed before a failure stay
    committed. *)

Inductive pc :=
| AtSelectStatus                                (* line 151 *)
| AtUpdateDecision                              (* line 170 *)
| AtSelectDetails                               (* line 193 *)
| AtInsert (team db_type env size : string)     (* line 222 *)
| AtUpdateProvisioned                           (* line 231 *)
| Returned (r : response)
| Raised (e : exn).

Definition storage_failure : exn := StorageError "statement failed".

Definition step (approval : ApprovalAction) (hex : string) (now : Z) (accepted : bool)
    (db : database) (at_pc : pc) : database * pc :=
  match at_pc with
  | Returned _ | Raised _ => (db, at_pc)
  | AtSelectStatus =>
    if accepted then
      match select_status db (request_id approval) with
      | None => (db, Raised NotFound)
      | Some result =>
        if decide (result ≠ "pending") then (db, Raised (InvalidTransition result))
        else (db, AtUpdateDecision)
      end
    else (db, Raised storage_failure)
  | AtUpdateDecision =>
    if accepted then
      match update_decision db (new_status approval) (approver approval)
              (notes approval) now (request_id approval) with
      | inl err => (db, Raised err)
      | inr db1 =>
        if decide (action approval = "approve") then (db1, AtSelectDetails)
        else (db1, Returned (decision_response approval))
      end
    else (db, Raised storage_failure)
  | AtSelectDetails =>
    if accepted then
      match select_details db (request_id approval) with
      | None => (db, Raised TypeError)
      | Some (team, db_type, env, size) => (db, AtInsert team db_type env size)
      end
    else (db, Raised storage_failure)
  | AtInsert team db_type env size =>
    if accepted then
      let db_name := db_name_of team env db_type hex in
      let '(estimated_cost, port) := derive size db_type in
      match insert_provisioned_database db (request_id approval) db_name db_type env
              host port estimated_cost now with
      | inl err => (db, Raised err)
      | inr db1 => (db1, AtUpdateProvisioned)
      end
    else (db, Raised storage_failure)
  | AtUpdateProvisioned =>
    if accepted then
      (update_provisioned db now (request_id approval),
       Returned (decision_response approval))
    else (db, Raised storage_failure)
  end.

(** One call run on its own: a statement per element of [inputs]. *)
Fixpoint run_call (approval : ApprovalAction) (hex : string) (inputs : list (Z * bool))
    (db : database) (at_pc : pc) : database * pc :=
  match inputs with
  | [] => (db, at_pc)
  | (now, accepted) :: rest =>
    let '(db', pc') := step approval hex now accepted db at_pc in
    run_call approval hex rest db' pc'
  end.

Definition finished (at_pc : pc) : bool :=
  match at_pc with
  | Returned _ | Raised _ => true
  | _ => false
  end.

(** Statements a call at [at_pc] has still to run, at most. *)
Definition statements_left (at_pc : pc) : nat :=
  match at_pc with
  | AtSelectStatus => 5
  | AtUpdateDecision => 4
  | AtSelectDetails => 3
  | AtInsert _ _ _ _ => 2
  | AtUpdateProvisioned => 1
  | Returned _ | Raised _ => 0
  end.

(** Several calls in flight on the one connection, as the thread pool
    that serves the endpoints runs them: a schedule names, statement by
    statement, the call that goes next. *)
Record thread := {
  th_approval : ApprovalAction;
  th_hex : string;
  th_pc : pc
}.

Definition spawn (approval : ApprovalAction) (hex : string) : thread :=
  {| th_approval := approval; th_hex := hex; th_pc := AtSelectStatus |}.

Definition sched_step (st : database * list thread) (i : nat) (now : Z)
    : database * list thread :=
  match st.2 !! i with
  | None => st
  | Some t =>
    let '(db', pc') := step (th_approval t) (th_hex t) now true st.1 (th_pc t) in
    (db', <[i := {| th_approval := th_approval t; th_hex := th_hex t; th_pc := pc' |}]> st.2)
  end.

Definition run_schedule (sched : list (nat * Z)) (st : database * list thread)
    : database * list thread :=
  foldl (λ st e, sched_step st e.1 e.2) st sched.

Definition returned (t : thread) : bool :=
  match th_pc t with Returned _ => true | _ => false end.

Definition raised_invalid_transition (t : thread) : bool :=
  match th_pc t with Raised (HTTPException 400 _) => true | _ => false end.

(** The calls one after the other, each running to its end before the
    next begins. *)
Fixpoint decide_in_turn (db : database) (calls : list (ApprovalAction * approval_env))
    : database * list (exn + response) :=
  match calls with
  | [] => (db, [])
  | (approval, e) :: rest =>
    let '(db1, r) := process_approval db approval e in
    let '(db2, rs) := decide_in_turn db1 rest in
    (db2, r :: rs)
  end.

(** ** The end-to-end scenario of the specification

    [submit(team="data-eng", db_type="postgres", environment="prod",
    size="large", purpose="x")], then [decide(id, approve, "a@b.com")]. *)

Definition scenario_request : DatabaseRequest :=
  {| team_name := "data-eng"; db_type := "postgres"; environment := "prod";
     size := "large"; purpose := "x" |}.

Definition scenario_id : string := "6f1c2a9e-0b7d-4c55-9a3e-2d8f41b7c0de".

(** One pending request, created at time 1. *)
Definition scenario_db : database :=
  (create_request empty_database scenario_request scenario_id 1).1.

Definition scenario_decision (action : string) : ApprovalAction :=
  {| request_id := scenario_id; action := action; approver := "a@b.com";
     notes := None |}.

Definition scenario_env : approval_env :=
  {| t_decision := 2; t_insert := 3; t_provisioned := 4;
     uuid4_hex := "3f2b8c1d9e4a4f6b8a7c5d2e1f0a9b8c" |}.

(** The row a successful approval of request [id] (row [r]) inserts,
    under the name the column stored. *)
Definition provisioned_record (db : database) (id : string) (r : db_requests_row)
    (db_name : string) (e : approval_env) : provisioned_databases_row :=
  {| d_db_id := db_id_seq db + 1;
     d_request_id := id;
     d_db_name := db_name;
     d_db_type := r_db_type r;
     d_environment := r_environment r;
     d_host := host;
     d_port := port (r_db_type r);
     d_estimated_cost := estimated_cost (r_size r);
     d_status := "active";
     d_created_at := t_insert e |}.

(** The name generated for request row [r]. *)
Definition db_name_for (r : db_requests_row) (hex : string) : string :=
  db_name_of (r_team_name r) (r_environment r) (r_db_type r) hex.

(** The store accepts the values a decision on row [r] writes: the
    approver and, for an approve, the generated name. *)
Definition accepted_by_store (approval : ApprovalAction) (r : db_requests_row)
    (hex : string) : Prop :=
  fits 100 (approver approval) ∧
  (action approval = "approve" → fits 100 (db_name_for r hex)).

(** The key and the fields of a submission are within the widths of
    their columns. *)
Definition within_widths (id : string) (request : DatabaseRequest) : Prop :=
  (String.length id ≤ 36 ∧
   String.length (team_name request) ≤ 100 ∧
   String.length (db_type request) ≤ 20 ∧
   String.length (environment request) ≤ 20 ∧
   String.length (size request) ≤ 20)%nat.

(** An approver of 101 characters and a team name of 90: each is a
    value the request bodies accept; the name generated for the team has
    113 characters. *)
Definition wide_approver : string :=
  "approver-approver-approver-approver-approver-approver-approver-approver-approver-approver@example.com".

Definition wide_team : string :=
  "platform-engineering-platform-engineering-platform-engineering-platform-engineering-team-a".

Definition wide_team_request : DatabaseRequest :=
  {| team_name := wide_team; db_type := "postgres"; environment := "prod";
     size := "large"; purpose := "x" |}.

(** One pending request of the wide team, created at time 1. *)
Definition wide_team_db : database :=
  (create_request empty_database wide_team_request scenario_id 1).1.

(** The row [create_request] stored for the wide team. *)
Definition wide_team_row : db_requests_row :=
  {| r_team_name := wide_team; r_db_type := "postgres"; r_environment := "prod";
     r_size := "large"; r_purpose := "x"; r_status := "pending"; r_created_at := 1;
     r_approved_at := None; r_provisioned_at := None; r_approver := None;
     r_approval_notes := None |}.

(** The row [create_request] stored for the scenario. *)
Definition scenario_row : db_requests_row :=
  {| r_team_name := "data-eng"; r_db_type := "postgres"; r_environment := "prod";
     r_size := "large"; r_purpose := "x"; r_status := "pending"; r_created_at := 1;
     r_approved_at := None; r_provisioned_at := None; r_approver := None;
     r_approval_notes := None |}.

(** A store of 51 requests like the scenario's, created at times 1 to
    51; request [n] is stored under the one-character key of code
    [48 + n]. *)
Definition crowded_id (n : nat) : string :=
  String (Ascii.ascii_of_nat (48 + n)) EmptyString.

Definition crowded_db : database :=
  foldl (λ db n, (create_request db scenario_request (crowded_id n) (Z.of_nat n)).1)
    empty_database (seq 1 51).

(** [uuid.uuid4().hex] is 32 lower-case hexadecimal digits. *)
Definition hex_digit (c : Ascii.ascii) : bool :=
  let n := Ascii.nat_of_ascii c in
  ((48 <=? n)%nat && (n <=? 57)%nat) || ((97 <=? n)%nat && (n <=? 102)%nat).

Fixpoint all_hex (s : string) : bool :=
  match s with
  | EmptyString => true
  | String c s' => hex_digit c && all_hex s'
  end.

Definition is_uuid4_hex (s : string) : Prop :=
  String.length s = 32%nat ∧ all_hex s = true.

(** ** Operations and reachable states *)

Inductive operation :=
| Submit (request : DatabaseRequest) (uuid4_str : string) (now : Z)
| Decide (approval : ApprovalAction) (e : approval_env).

Definition run_operation (db : database) (op : operation) : database :=
  match op with
  | Submit request uuid4_str now => (create_request db request uuid4_str now).1
  | Decide approval e => (process_approval db approval e).1
  end.

(** States the service reaches when its calls run one after the other,
    each to its end, and a statement is refused only for a key or for a
    value wider than its column. *)
Inductive reachable : database → Prop :=
| reachable_empty : reachable empty_database
| reachable_op db op : reachable db → reachable (run_operation db op).

(** States it reaches when its calls run one after the other and any
    statement of a decision may fail.  [inputs] may also end before the
    call does: the state seen while a call is in flight is included. *)
Inductive reachable_with_failures : database → Prop :=
| rwf_empty : reachable_with_failures empty_database
| rwf_submit db request uuid4_str now :
    reachable_with_failures db →
    reachable_with_failures (create_request db request uuid4_str now).1
| rwf_decide db approval hex inputs :
    reachable_with_failures db →
    reachable_with_failures (run_call approval hex inputs db AtSelectStatus).1.

(** ** Invariants *)

(** The Request invariant of the data model, on one row. *)
Definition request_invariant (r : db_requests_row) : Prop :=
  r_status r ∈ ["pending"; "approved"; "rejected"; "provisioned"] ∧
  (is_Some (r_approved_at r) ↔ r_status r ∈ ["approved"; "rejected"; "provisioned"]) ∧
  (is_Some (r_provisioned_at r) ↔ r_status r = "provisioned").

Global Instance request_invariant_dec r : Decision (request_invariant r).
Proof. unfold request_invariant. apply _. Defined.

Definition requests_invariant (db : database) : Prop :=
  map_Forall (λ _ r, request_invariant r) (db_requests db).

Global Instance requests_invariant_dec db : Decision (requests_invariant db).
Proof. unfold requests_invariant. apply _. Defined.

(** Every provisioned request has a database row linked to it. *)
Definition linked (db : database) : Prop :=
  ∀ id r, db_requests db !! id = Some r → r_status r = "provisioned" →
    ∃ d, d ∈ provisioned_databases db ∧ d_request_id d = id.

(** Every database row belongs to a provisioned request. *)
Definition backed (db : database) : Prop :=
  ∀ d, d ∈ provisioned_databases db →
    select_status db (d_request_id d) = Some "provisioned".

Definition consistent (db : database) : Prop := linked db ∧ backed db.

(** ** The ways a decision can go *)

Inductive decision_outcome (db : database) (approval : ApprovalAction)
    (e : approval_env) : database * (exn + response) → Prop :=
| outcome_unknown :
    db_requests db !! request_id approval = None →
    decision_outcome db approval e (db, inl NotFound)
| outcome_not_pending r :
    db_requests db !! request_id approval = Some r →
    r_status r ≠ "pending" →
    decision_outcome db approval e (db, inl (InvalidTransition (r_status r)))
| outcome_approver_refused r :
    db_requests db !! request_id approval = Some r →
    r_status r = "pending" →
    varchar 100 (approver approval) = None →
    decision_outcome db approval e (db, inl too_long)
| outcome_name_refused r who :
    db_requests db !! request_id approval = Some r →
    r_status r = "pending" →
    action approval = "approve" →
    varchar 100 (approver approval) = Some who →
    varchar 100 (db_name_for r (uuid4_hex e)) = None →
    decision_outcome db approval e
      ({| db_requests :=
            <[request_id approval :=
                decided "approved" who (notes approval) (t_decision e) r]>
              (db_requests db);
          provisioned_databases := provisioned_databases db;
          db_id_seq := db_id_seq db |},
       inl too_long)
| outcome_approved r who name :
    db_requests db !! request_id approval = Some r →
    r_status r = "pending" →
    action approval = "approve" →
    varchar 100 (approver approval) = Some who →
    varchar 100 (db_name_for r (uuid4_hex e)) = Some name →
    decision_outcome db approval e
      ({| db_requests :=
            <[request_id approval :=
                provisioned (t_provisioned e)
                  (decided "approved" who (notes approval) (t_decision e) r)]>
              (db_requests db);
          provisioned_databases :=
            provisioned_databases db ++
            [provisioned_record db (request_id approval) r name e];
          db_id_seq := db_id_seq db + 1 |},
       inr (decision_response approval))
| outcome_rejected r who :
    db_requests db !! request_id approval = Some r →
    r_status r = "pending" →
    action approval ≠ "approve" →
    varchar 100 (approver approval) = Some who →
    decision_outcome db approval e
      ({| db_requests :=
            <[request_id approval :=
                decided "rejected" who (notes approval) (t_decision e) r]>
              (db_requests db);
          provisioned_databases := provisioned_databases db;
          db_id_seq := db_id_seq db |},
       inr (decision_response approval)).

(** The way a finished call leaves [process_approval]. *)
Definition outcome_pc (res : exn + response) : pc :=
  match res with
  | inl err => Raised err
  | inr ret => Returned ret
  end.

(** What a call about to run its last UPDATE has already inserted. *)
Definition inserted (approval : ApprovalAction) (db : database) (at_pc : pc) : Prop :=
  match at_pc with
  | AtUpdateProvisioned =>
    ∃ d, d ∈ provisioned_databases db ∧ d_request_id d = request_id approval
  | _ => True
  end.

(** What a call knows about its request from the statements it has run. *)
Definition call_invariant (approval : ApprovalAction) (db : database) (at_pc : pc)
    : Prop :=
  match at_pc with
  | AtUpdateDecision =>
    select_status db (request_id approval) = Some "pending"
  | AtSelectDetails | AtInsert _ _ _ _ | AtUpdateProvisioned =>
    select_status db (request_id approval) = Some "approved"
  | _ => True
  end.

(** ** Listing provisioned databases (lines 239-267 and 307-317) *)

(** One element of the list [get_databases] returns.  The cost stays in
    hundredths: [float(row[6])] of a [DECIMAL(10,2)]. *)
Record database_entry := {
  e_db_id : Z;
  e_db_name : string;
  e_db_type : string;
  e_environment : string;
  e_host : string;
  e_port : Z;
  e_estimated_monthly_cost : Z;
  e_status : string;
  e_created_at : Z;
  e_team_name : string
}.

(** [FROM provisioned_databases d JOIN db_requests r
    ON d.request_id = r.request_id]: a row without its request drops out. *)
Definition join_request (db : database) (d : provisioned_databases_row)
    : option (provisioned_databases_row * db_requests_row) :=
  (λ r, (d, r)) <$> db_requests db !! d_request_id d.

Definition entry (dr : provisioned_databases_row * db_requests_row) : database_entry :=
  {| e_db_id := d_db_id dr.1;
     e_db_name := d_db_name dr.1;
     e_db_type := d_db_type dr.1;
     e_environment := d_environment dr.1;
     e_host := d_host dr.1;
     e_port := d_port dr.1;
     e_estimated_monthly_cost := d_estimated_cost dr.1;
     e_status := d_status dr.1;
     e_created_at := d_created_at dr.1;
     e_team_name := r_team_name dr.2 |}.

(** [ORDER BY d.created_at DESC] *)
Definition newest_database_first
    (x y : provisioned_databases_row * db_requests_row) : Prop :=
  d_created_at y.1 ≤ d_created_at x.1.

Global Instance newest_database_first_dec : RelDecision newest_database_first.
Proof. intros x y. unfold newest_database_first. apply _. Defined.

Definition newest_entry_first (x y : database_entry) : Prop :=
  e_created_at y ≤ e_created_at x.

Definition get_databases (db : database) : database * list database_entry :=
  let joined := omap (join_request db) (provisioned_databases db) in
  (db, entry <$> merge_sort newest_database_first
                   (filter (λ dr, d_status dr.1 = "active") joined)).

(** The body of [GET /databases]. *)
Record databases_listing := {
  l_databases : list database_entry;
  l_total_count : nat;
  l_total_monthly_cost : Z
}.

(** [sum(db['estimated_monthly_cost'] for db in databases)], in hundredths. *)
Definition sum_costs (costs : list Z) : Z := foldl Z.add 0 costs.

(** [round(total_cost, 2)] leaves a number of hundredths as it is.  The
    costs this program stores are whole amounts (50, 100, 150, 500), whose
    floating-point sums are exact. *)
Definition list_databases (db : database) : database * databases_listing :=
  let '(db', databases) := get_databases db in
  let total_cost := sum_costs (e_estimated_monthly_cost <$> databases) in
  (db', {| l_databases := databases;
           l_total_count := length databases;
           l_total_monthly_cost := total_cost |}).

(** ** What the operations leave alone *)

(** The columns [create_request] fills and nothing updates. *)
Definition same_submission (r r' : db_requests_row) : Prop :=
  r_team_name r' = r_team_name r ∧
  r_db_type r' = r_db_type r ∧
  r_environment r' = r_environment r ∧
  r_size r' = r_size r ∧
  r_purpose r' = r_purpose r ∧
  r_created_at r' = r_created_at r.

(** [db'] comes after [db]: no request is added or removed, every request
    keeps the columns of its submission, and database rows are only
    appended. *)
Definition grows (db db' : database) : Prop :=
  (∀ id, db_requests db' !! id = None ↔ db_requests db !! id = None) ∧
  (∀ id r r', db_requests db !! id = Some r → db_requests db' !! id = Some r' →
     same_submission r r') ∧
  provisioned_databases db `prefix_of` provisioned_databases db'.

(** A database row carries what its request says. *)
Definition row_of_request (db : database) (d : provisioned_databases_row) : Prop :=
  ∃ r, db_requests db !! d_request_id d = Some r ∧
       d_status d = "active" ∧
       d_host d = host ∧
       d_db_type d = r_db_type r ∧
       d_environment d = r_environment r ∧
       d_port d = port (r_db_type r) ∧
       d_estimated_cost d = estimated_cost (r_size r).

Definition rows_derived (db : database) : Prop :=
  Forall (row_of_request db) (provisioned_databases db).

(** What a call has read at line 199. *)
Definition details_read (approval : ApprovalAction) (db : database) (at_pc : pc)
    : Prop :=
  match at_pc with
  | AtInsert team db_type env size =>
    select_details db (request_id approval) = Some (team, db_type, env, size)
  | _ => True
  end.

(** ** Calls as the store may treat them *)

(** A submission, or a decision given, statement by statement, the time
    and whether the store can be reached for it.  A submission for whose
    one statement the store cannot be reached changes nothing: it is a
    call left out of the list. *)
Inductive attempt :=
| TrySubmit (request : DatabaseRequest) (uuid4_str : string) (now : Z)
| TryDecide (approval : ApprovalAction) (hex : string) (inputs : list (Z * bool)).

Definition run_attempt (db : database) (a : attempt) : database :=
  match a with
  | TrySubmit request uuid4_str now => (create_request db request uuid4_str now).1
  | TryDecide approval hex inputs => (run_call approval hex inputs db AtSelectStatus).1
  end.

(** An operation is the attempt in which the store is reached for every
    statement. *)
Definition attempt_of (op : operation) : attempt :=
  match op with
  | Submit request uuid4_str now => TrySubmit request uuid4_str now
  | Decide approval e =>
    TryDecide approval (uuid4_hex e)
      [(t_decision e, true); (t_decision e, true); (t_insert e, true);
       (t_insert e, true); (t_provisioned e, true)]
  end.

(** A decision changes at most the request it names. *)
Definition touches_only (id : string) (db db' : database) : Prop :=
  ∀ id', id' ≠ id → db_requests db' !! id' = db_requests db !! id'.

(** The status of the request of a call that has passed its decision
    UPDATE with action approve. *)
Definition provisioning_status (approval : ApprovalAction) (db : database)
    (at_pc : pc) : Prop :=
  match at_pc with
  | AtSelectStatus | AtUpdateDecision => False
  | Returned _ => select_status db (request_id approval) = Some "provisioned"
  | _ => select_status db (request_id approval) = Some "approved"
  end.

(** The requests with status [provisioned], with their keys. *)
Definition provisioned_requests (db : database) : list (string * db_requests_row) :=
  filter (λ kr, r_status kr.2 = "provisioned") (map_to_list (db_requests db)).

(** ** Calls in flight together *)

(** A call that has passed the pending check and has not raised. *)
Definition passed (at_pc : pc) : bool :=
  match at_pc with
  | AtSelectDetails | AtInsert _ _ _ _ | AtUpdateProvisioned | Returned _ => true
  | _ => false
  end.

(** A call that has not yet written. *)
Definition before_write (at_pc : pc) : bool :=
  match at_pc with
  | AtSelectStatus | AtUpdateDecision => true
  | _ => false
  end.

(** What holds of a call that is provisioning the request submitted as
    [r]: its action is approve, and the team, type and environment it
    read are those of [r]. *)
Definition in_provisioning (approval : ApprovalAction) (r : db_requests_row)
    (at_pc : pc) : Prop :=
  match at_pc with
  | AtSelectDetails | AtUpdateProvisioned => action approval = "approve"
  | AtInsert team db_type env size =>
    action approval = "approve" ∧
    team = r_team_name r ∧ db_type = r_db_type r ∧ env = r_environment r
  | _ => True
  end.

(** Calls on request [id], stored as submitted in [r], whose values the
    store accepts: either the request is still pending and no call has
    written or ended, or some call has passed the check. *)
Definition race_invariant (id : string) (r : db_requests_row)
    (st : database * list thread) : Prop :=
  (∃ r', db_requests st.1 !! id = Some r' ∧ same_submission r r') ∧
  Forall (λ t, request_id (th_approval t) = id ∧
               accepted_by_store (th_approval t) r (th_hex t) ∧
               in_provisioning (th_approval t) r (th_pc t)) st.2 ∧
  ((select_status st.1 id = Some "pending" ∧
    Forall (λ t, before_write (th_pc t) = true) st.2) ∨
   Exists (λ t, passed (th_pc t) = true) st.2).

Definition all_inserted (st : database * list thread) : Prop :=
  Forall (λ t, inserted (th_approval t) st.1 (th_pc t)) st.2.

(** The two exceptions the provisioning code could raise on its own: the
    unpacking of an empty [fetchone()] and the foreign key of the INSERT. *)
Definition internal_error (at_pc : pc) : bool :=
  match at_pc with
  | Raised TypeError => true
  | Raised (StorageError what) =>
    bool_decide (what = "violates foreign key constraint")
  | _ => false
  end.

(** * Properties *)

Section lookups.
Implicit Types (db : database) (id : string) (r : db_requests_row).

Lemma select_status_Some db id s :
  select_status db id = Some s ↔
  ∃ r, db_requests db !! id = Some r ∧ r_status r = s.
Proof.
  unfold select_status. rewrite fmap_Some. firstorder.
Qed.

Lemma select_status_None db id :
  select_status db id = None ↔ db_requests db !! id = None.
Proof. unfold select_status. apply fmap_None. Qed.

Lemma cost_map_lookup s :
  cost_map !! s =
    if decide (s = "small") then Some 5000
    else if decide (s = "medium") then Some 15000
    else if decide (s = "large") then Some 50000
    else None.
Proof.
  unfold cost_map. rewrite !lookup_insert, lookup_empty.
  repeat case_decide; congruence.
Qed.

Lemma port_map_lookup s :
  port_map !! s =
    if decide (s = "postgres") then Some 5432
    else if decide (s = "mysql") then Some 3306
    else if decide (s = "redis") then Some 6379
    else None.
Proof.
  unfold port_map. rewrite !lookup_insert, lookup_empty.
  repeat case_decide; congruence.
Qed.
End lookups.

Lemma varchar_within n s : (String.length s ≤ n)%nat → varchar n s = Some s.
Proof. intros Hlen. unfold varchar. by rewrite decide_True. Qed.

Lemma fits_within n s : (String.length s ≤ n)%nat → fits n s.
Proof. intros Hlen. unfold fits. by rewrite varchar_within. Qed.

Section decide_once.
Variables (db : database) (approval : ApprovalAction) (e : approval_env).
Variable r : db_requests_row.
Hypothesis Hrow : db_requests db !! request_id approval = Some r.
Hypothesis Hpending : r_status r = "pending".

(** The approver does not fit: nothing is written. *)
Lemma process_approval_approver_refused :
  varchar 100 (approver approval) = None →
  process_approval db approval e = (db, inl too_long).
Proof.
  intros Hwho. unfold process_approval, select_status. rewrite Hrow. simpl.
  rewrite Hpending. rewrite decide_False by (intros H; by apply H).
  unfold update_decision. by rewrite Hwho.
Qed.

(** The whole effect of approving a pending request. *)
Lemma process_approval_approve who name :
  action approval = "approve" →
  varchar 100 (approver approval) = Some who →
  varchar 100 (db_name_for r (uuid4_hex e)) = Some name →
  process_approval db approval e =
    ({| db_requests :=
          <[request_id approval :=
              provisioned (t_provisioned e)
                (decided "approved" who (notes approval) (t_decision e) r)]>
            (db_requests db);
        provisioned_databases :=
          provisioned_databases db ++
          [provisioned_record db (request_id approval) r name e];
        db_id_seq := db_id_seq db + 1 |},
     inr (decision_response approval)).
Proof.
  intros Ha Hwho Hname. unfold process_approval, select_status. rewrite Hrow. simpl.
  rewrite Hpending. rewrite decide_False by (intros H; by apply H).
  unfold update_decision. rewrite Hwho.
  rewrite decide_True by done.
  unfold _provision_database, select_details. simpl.
  rewrite lookup_alter_eq, Hrow. simpl.
  unfold insert_provisioned_database. simpl.
  unfold db_name_for in Hname. rewrite Hname.
  rewrite lookup_alter_eq, Hrow. simpl.
  unfold update_provisioned, provisioned_record, new_status. simpl.
  rewrite decide_True by done.
  f_equal. f_equal.
  apply map_eq. intros j.
  destruct (decide (request_id approval = j)) as [<-|Hne].
  - by rewrite !lookup_alter_eq, Hrow, lookup_insert_eq.
  - by rewrite !lookup_alter_ne, lookup_insert_ne.
Qed.

(** The generated name does not fit: the decision stays, no row is
    inserted. *)
Lemma process_approval_name_refused who :
  action approval = "approve" →
  varchar 100 (approver approval) = Some who →
  varchar 100 (db_name_for r (uuid4_hex e)) = None →
  process_approval db approval e =
    ({| db_requests :=
          <[request_id approval :=
              decided "approved" who (notes approval) (t_decision e) r]>
            (db_requests db);
        provisioned_databases := provisioned_databases db;
        db_id_seq := db_id_seq db |},
     inl too_long).
Proof.
  intros Ha Hwho Hname. unfold process_approval, select_status. rewrite Hrow. simpl.
  rewrite Hpending. rewrite decide_False by (intros H; by apply H).
  unfold update_decision. rewrite Hwho.
  rewrite decide_True by done.
  unfold _provision_database, select_details. simpl.
  rewrite lookup_alter_eq, Hrow. simpl.
  unfold insert_provisioned_database. simpl.
  unfold db_name_for in Hname. rewrite Hname.
  unfold new_status. rewrite decide_True by done.
  f_equal. f_equal.
  apply map_eq. intros j.
  destruct (decide (request_id approval = j)) as [<-|Hne].
  - by rewrite lookup_alter_eq, Hrow, lookup_insert_eq.
  - by rewrite lookup_alter_ne, lookup_insert_ne.
Qed.

(** The whole effect of any other decision on a pending request. *)
Lemma process_approval_other who :
  action approval ≠ "approve" →
  varchar 100 (approver approval) = Some who →
  process_approval db approval e =
    ({| db_requests :=
          <[request_id approval :=
              decided "rejected" who (notes approval) (t_decision e) r]>
            (db_requests db);
        provisioned_databases := provisioned_databases db;
        db_id_seq := db_id_seq db |},
     inr (decision_response approval)).
Proof.
  intros Ha Hwho. unfold process_approval, select_status. rewrite Hrow. simpl.
  rewrite Hpending. rewrite decide_False by (intros H; by apply H).
  unfold update_decision. rewrite Hwho.
  rewrite decide_False by done.
  unfold new_status. rewrite decide_False by done.
  f_equal. f_equal.
  apply map_eq. intros j.
  destruct (decide (request_id approval = j)) as [<-|Hne].
  - by rewrite lookup_alter_eq, Hrow, lookup_insert_eq.
  - by rewrite lookup_alter_ne, lookup_insert_ne.
Qed.
End decide_once.

Section decide_rejected.
Variables (db : database) (approval : ApprovalAction) (e : approval_env).

Lemma process_approval_unknown :
  db_requests db !! request_id approval = None →
  process_approval db approval e = (db, inl NotFound).
Proof.
  intros Hnone. unfold process_approval, select_status. by rewrite Hnone.
Qed.

Lemma process_approval_not_pending s :
  select_status db (request_id approval) = Some s → s ≠ "pending" →
  process_approval db approval e = (db, inl (InvalidTransition s)).
Proof.
  intros Hs Hne. unfold process_approval. rewrite Hs.
  by rewrite decide_True.
Qed.

Lemma process_approval_outcome :
  decision_outcome db approval e (process_approval db approval e).
Proof.
  destruct (db_requests db !! request_id approval) as [r|] eqn:Hr.
  - destruct (decide (r_status r = "pending")) as [Hst|Hst].
    + destruct (varchar 100 (approver approval)) as [who|] eqn:Hwho.
      * destruct (decide (action approval = "approve")) as [Ha|Ha].
        -- destruct (varchar 100 (db_name_for r (uuid4_hex e))) as [name|] eqn:Hname.
           ++ rewrite (process_approval_approve db approval e r Hr Hst who name)
                by done.
              by econstructor.
           ++ rewrite (process_approval_name_refused db approval e r Hr Hst who)
                by done.
              by econstructor.
        -- rewrite (process_approval_other db approval e r Hr Hst who) by done.
           by econstructor.
      * rewrite (process_approval_approver_refused db approval e r) by done.
        by econstructor.
    + rewrite (process_approval_not_pending (r_status r)); [by constructor| |done].
      unfold select_status. by rewrite Hr.
  - rewrite process_approval_unknown by done. by constructor.
Qed.

(** A call that returns found the request pending and its values
    accepted. *)
Lemma process_approval_returns db1 ret :
  process_approval db approval e = (db1, inr ret) →
  ∃ r who, db_requests db !! request_id approval = Some r ∧
           r_status r = "pending" ∧
           varchar 100 (approver approval) = Some who ∧
           ((action approval = "approve" ∧
             ∃ name, varchar 100 (db_name_for r (uuid4_hex e)) = Some name ∧
               db1 = {| db_requests :=
                          <[request_id approval :=
                              provisioned (t_provisioned e)
                                (decided "approved" who (notes approval)
                                   (t_decision e) r)]> (db_requests db);
                        provisioned_databases :=
                          provisioned_databases db ++
                          [provisioned_record db (request_id approval) r name e];
                        db_id_seq := db_id_seq db + 1 |}) ∨
            (action approval ≠ "approve" ∧
             db1 = {| db_requests :=
                        <[request_id approval :=
                            decided "rejected" who (notes approval)
                              (t_decision e) r]> (db_requests db);
                      provisioned_databases := provisioned_databases db;
                      db_id_seq := db_id_seq db |})).
Proof.
  intros Hcall. pose proof process_approval_outcome as Hout.
  rewrite Hcall in Hout.
  inversion Hout as [|r|r|r who|r who name|r who]; subst.
  - exists r, who. repeat (split; [done|]). left. split; [done|]. by exists name.
  - exists r, who. repeat (split; [done|]). by right.
Qed.
End decide_rejected.

Lemma substring_prefix n s :
  (n ≤ String.length s)%nat → all_hex s = true →
  String.length (String.substring 0 n s) = n ∧
  all_hex (String.substring 0 n s) = true.
Proof.
  revert s. induction n as [|n IH]; intros [|c s]; simpl; try done; try lia.
  intros Hn [Hc Hs]%andb_prop.
  destruct (IH s) as [Hlen Hhex]; [lia|done|].
  rewrite Hlen, Hc, Hhex. done.
Qed.

(** A submission either changes nothing or stores one pending row under
    a key that was free. *)
Lemma create_request_cases db request uuid4_str now :
  (create_request db request uuid4_str now).1 = db ∨
  ∃ key row,
    db_requests db !! key = None ∧
    (create_request db request uuid4_str now).1 =
      {| db_requests := <[key := row]> (db_requests db);
         provisioned_databases := provisioned_databases db;
         db_id_seq := db_id_seq db |} ∧
    r_status row = "pending" ∧
    r_approved_at row = None ∧
    r_provisioned_at row = None.
Proof.
  unfold create_request, insert_request.
  destruct (varchar 36 uuid4_str) as [key|]; [|by left].
  destruct (varchar 100 (team_name request)); [|by left].
  destruct (varchar 20 (db_type request)); [|by left].
  destruct (varchar 20 (environment request)); [|by left].
  destruct (varchar 20 (size request)); [|by left].
  destruct (db_requests db !! key) eqn:Hkey; [by left|].
  right. by eexists key, _.
Qed.

(** ** The cost and port tables *)

(** C6. The derivation is a function of [(size, db_type)] alone: cost is
    50.00 for small, 150.00 for medium, 500.00 for large and 100.00 for
    any other size (in hundredths); port is 5432 for postgres, 3306 for
    mysql, 6379 for redis and 5432 for any other type.  In particular
    [derive "large" "postgres" = (500.00, 5432)] and
    [derive "xlarge" "mongo" = (100.00, 5432)]. *)
Theorem derive_tables :
  (∀ size db_type,
     derive size db_type =
       (if decide (size = "small") then 5000
        else if decide (size = "medium") then 15000
        else if decide (size = "large") then 50000
        else 10000,
        if decide (db_type = "postgres") then 5432
        else if decide (db_type = "mysql") then 3306
        else if decide (db_type = "redis") then 6379
        else 5432)) ∧
  derive "large" "postgres" = (50000, 5432) ∧
  derive "xlarge" "mongo" = (10000, 5432).
Proof.
  split; [|done].
  intros sz ty. unfold derive, estimated_cost, port.
  rewrite cost_map_lookup, port_map_lookup.
  by repeat case_decide.
Qed.

(** ** Deciding a request *)

(** C7. A decision on a request id that identifies no stored request
    fails with NotFound (HTTP 404) and leaves the whole state, both
    tables, exactly as it was. *)
Theorem decide_unknown_id db approval e :
  db_requests db !! request_id approval = None →
  process_approval db approval e =
    (db, inl (HTTPException 404 "Request not found")).
Proof. apply process_approval_unknown. Qed.

Lemma decide_unknown_id_witness :
  let unknown :=
    {| request_id := "00000000-0000-4000-8000-000000000000"; action := "approve";
       approver := "a@b.com"; notes := None |} in
  db_requests scenario_db !! request_id unknown = None ∧
  process_approval scenario_db unknown scenario_env =
    (scenario_db, inl (HTTPException 404 "Request not found")).
Proof.
  intros unknown. split; [reflexivity|].
  apply (decide_unknown_id scenario_db unknown scenario_env).
  reflexivity.
Defined.

(** C1, as the code has it.  Approving an existing pending request, every
    statement accepted by the store, stores status [provisioned] on the
    request; the value returned to the caller carries the decision,
    status ['approved'] and message ['Request approved successfully']. *)
Theorem approve_pending_result db approval e r :
  db_requests db !! request_id approval = Some r →
  r_status r = "pending" →
  action approval = "approve" →
  accepted_by_store approval r (uuid4_hex e) →
  ∃ db',
    process_approval db approval e =
      (db', inr {| resp_request_id := request_id approval;
                   resp_status := "approved";
                   resp_message := "Request approved successfully" |}) ∧
    select_status db' (request_id approval) = Some "provisioned".
Proof.
  intros Hr Hst Ha [[who Hwho] Hname].
  destruct (Hname Ha) as [name Hname'].
  eexists. split.
  - rewrite (process_approval_approve db approval e r Hr Hst who name Ha Hwho Hname').
    unfold decision_response, new_status. by rewrite decide_True.
  - unfold select_status. simpl. by rewrite lookup_insert_eq.
Qed.

Lemma approve_pending_result_witness :
  ∃ db',
    process_approval scenario_db (scenario_decision "approve") scenario_env =
      (db', inr {| resp_request_id := scenario_id;
                   resp_status := "approved";
                   resp_message := "Request approved successfully" |}) ∧
    select_status db' scenario_id = Some "provisioned".
Proof.
  apply (approve_pending_result scenario_db (scenario_decision "approve") scenario_env
           scenario_row); [reflexivity | reflexivity | reflexivity |].
  split; [|intros _]; apply fits_within; vm_compute; lia.
Defined.

(** C1 as stated fails: in the scenario the request is pending and is
    approved, the stored status becomes [provisioned], and the status
    field of the returned value is ['approved'], not ['provisioned']. *)
Lemma approve_result_not_provisioned :
  select_status scenario_db scenario_id = Some "pending" ∧
  ∃ db' ret,
    process_approval scenario_db (scenario_decision "approve") scenario_env =
      (db', inr ret) ∧
    select_status db' scenario_id = Some "provisioned" ∧
    resp_status ret = "approved" ∧
    resp_status ret ≠ "provisioned".
Proof.
  split; [reflexivity|].
  eexists _, _. split; [vm_compute; reflexivity|].
  split; [reflexivity|]. split; [reflexivity|]. discriminate.
Qed.

(** C10, as the code has it.  On an existing pending request every
    action string other than exactly ['approve'] (['reject'], but also
    ['cancel'] or the empty string) makes the call succeed with status
    [rejected], provided the [approver] column accepts the approver:
    the approver as the column stores it (the approver itself when it
    has at most 100 characters), the notes and [approved_at] are
    recorded, [provisioned_at] and the table of provisioned databases are
    left alone. *)
Theorem decide_other_action_rejects db approval e r :
  db_requests db !! request_id approval = Some r →
  r_status r = "pending" →
  action approval ≠ "approve" →
  fits 100 (approver approval) →
  ∃ db' r',
    process_approval db approval e =
      (db', inr {| resp_request_id := request_id approval;
                   resp_status := "rejected";
                   resp_message := "Request rejected successfully" |}) ∧
    db_requests db' !! request_id approval = Some r' ∧
    r_status r' = "rejected" ∧
    r_approver r' = varchar 100 (approver approval) ∧
    ((String.length (approver approval) ≤ 100)%nat →
       r_approver r' = Some (approver approval)) ∧
    r_approval_notes r' = notes approval ∧
    r_approved_at r' = Some (t_decision e) ∧
    r_provisioned_at r' = r_provisioned_at r ∧
    provisioned_databases db' = provisioned_databases db.
Proof.
  intros Hr Hst Ha [who Hwho]. eexists _, _. split.
  - rewrite (process_approval_other db approval e r Hr Hst who Ha Hwho).
    unfold decision_response, new_status. by rewrite decide_False.
  - simpl. rewrite lookup_insert_eq. repeat (split; [done|]).
    split; [|done]. intros Hlen. rewrite varchar_within in Hwho by done.
    by injection Hwho as <-.
Qed.

Lemma decide_other_action_rejects_witness :
  ∃ db' r',
    process_approval scenario_db (scenario_decision "cancel") scenario_env =
      (db', inr {| resp_request_id := scenario_id;
                   resp_status := "rejected";
                   resp_message := "Request rejected successfully" |}) ∧
    db_requests db' !! scenario_id = Some r' ∧
    r_status r' = "rejected" ∧
    r_approver r' = Some "a@b.com" ∧
    ((String.length "a@b.com" ≤ 100)%nat → r_approver r' = Some "a@b.com") ∧
    r_approval_notes r' = None ∧
    r_approved_at r' = Some 2 ∧
    r_provisioned_at r' = None ∧
    provisioned_databases db' = [].
Proof.
  apply (decide_other_action_rejects scenario_db (scenario_decision "cancel")
           scenario_env scenario_row); [reflexivity | reflexivity | discriminate |].
  apply fits_within. vm_compute. lia.
Defined.

(** C10 as stated fails: a ['cancel'] on the pending scenario request by
    an approver of 101 characters does not succeed; the decision UPDATE
    is refused, the call raises and the request stays [pending]. *)
Lemma wide_approver_is_refused :
  String.length wide_approver = 101%nat ∧
  select_status scenario_db scenario_id = Some "pending" ∧
  process_approval scenario_db
    {| request_id := scenario_id; action := "cancel"; approver := wide_approver;
       notes := None |} scenario_env =
    (scenario_db, inl (StorageError "value too long for type character varying")).
Proof. vm_compute. done. Qed.

(** C5, as the code has it.  Approving a pending request whose approver
    the store accepts and whose generated name
    [{team}_{environment}_{db_type}_] plus the first eight hexadecimal
    digits of a fresh uuid has at most 100 characters appends exactly one
    row to [provisioned_databases]: linked to the request, status
    [active], the fixed host, type and environment copied from the
    request, port and cost from the tables, and that name; the request
    ends [provisioned].  Rejecting a pending request whose approver the
    store accepts leaves it [rejected] and adds no row. *)
Theorem decide_pending_provisions db approval e r :
  db_requests db !! request_id approval = Some r →
  r_status r = "pending" →
  fits 100 (approver approval) →
  let db' := (process_approval db approval e).1 in
  let suffix := String.substring 0 8 (uuid4_hex e) in
  let db_name :=
    r_team_name r +:+ "_" +:+ r_environment r +:+ "_" +:+ r_db_type r
      +:+ "_" +:+ suffix in
  (action approval = "approve" → (String.length db_name ≤ 100)%nat →
     ∃ d,
       provisioned_databases db' = provisioned_databases db ++ [d] ∧
       d_request_id d = request_id approval ∧
       d_status d = "active" ∧
       d_host d = "db-cluster.example.com" ∧
       d_db_type d = r_db_type r ∧
       d_environment d = r_environment r ∧
       (d_estimated_cost d, d_port d) = derive (r_size r) (r_db_type r) ∧
       d_db_name d = db_name ∧
       (is_uuid4_hex (uuid4_hex e) →
          String.length suffix = 8%nat ∧ all_hex suffix = true) ∧
       select_status db' (request_id approval) = Some "provisioned") ∧
  (action approval = "reject" →
     select_status db' (request_id approval) = Some "rejected" ∧
     provisioned_databases db' = provisioned_databases db).
Proof.
  intros Hr Hst [who Hwho]. split; intros Ha.
  - intros Hlen.
    rewrite (process_approval_approve db approval e r Hr Hst who _ Ha Hwho
               (varchar_within 100 _ Hlen)). simpl.
    eexists. split; [done|].
    unfold select_status. simpl. rewrite lookup_insert_eq.
    repeat (split; [done|]). split; [|done].
    intros [Hl Hhex]. apply substring_prefix; [lia|done].
  - assert (action approval ≠ "approve") as Hne by (rewrite Ha; discriminate).
    rewrite (process_approval_other db approval e r Hr Hst who Hne Hwho).
    unfold select_status. simpl. by rewrite lookup_insert_eq.
Qed.

Lemma decide_pending_provisions_witness :
  ∃ d,
    provisioned_databases
      (process_approval scenario_db (scenario_decision "approve") scenario_env).1 =
      [d] ∧
    d_request_id d = scenario_id ∧
    d_status d = "active" ∧
    d_host d = "db-cluster.example.com" ∧
    d_db_type d = "postgres" ∧
    d_environment d = "prod" ∧
    (d_estimated_cost d, d_port d) = (50000, 5432) ∧
    d_db_name d = "data-eng_prod_postgres_3f2b8c1d" ∧
    (is_uuid4_hex (uuid4_hex scenario_env) →
       String.length "3f2b8c1d" = 8%nat ∧ all_hex "3f2b8c1d" = true) ∧
    select_status
      (process_approval scenario_db (scenario_decision "approve") scenario_env).1
      scenario_id = Some "provisioned".
Proof.
  apply (decide_pending_provisions scenario_db (scenario_decision "approve")
           scenario_env scenario_row);
    [reflexivity | reflexivity | apply fits_within; vm_compute; lia
    | reflexivity | vm_compute; lia].
Defined.

(** C5 as stated fails: the team name of 90 characters is stored, its
    request is pending, and approving it generates a name of 113
    characters that [db_name] refuses; the call raises, the request is
    left [approved] and no row is created. *)
Lemma wide_name_is_refused :
  String.length wide_team = 90%nat ∧
  select_status wide_team_db scenario_id = Some "pending" ∧
  (process_approval wide_team_db (scenario_decision "approve") scenario_env).2 =
    inl (StorageError "value too long for type character varying") ∧
  select_status
    (process_approval wide_team_db (scenario_decision "approve") scenario_env).1
    scenario_id = Some "approved" ∧
  provisioned_databases
    (process_approval wide_team_db (scenario_decision "approve") scenario_env).1 = [].
Proof. vm_compute. done. Qed.

(** C4. Once a decision on a request has succeeded, any further decision
    on the same id, whatever the action of either call, fails with
    InvalidTransition (HTTP 400); the message names the status the first
    call left ([provisioned] after an approve, [rejected] otherwise) and
    the state is unchanged. *)
Theorem decide_twice db a1 e1 a2 e2 db1 ret1 :
  process_approval db a1 e1 = (db1, inr ret1) →
  request_id a2 = request_id a1 →
  let s := if decide (action a1 = "approve") then "provisioned" else "rejected" in
  select_status db1 (request_id a1) = Some s ∧
  process_approval db1 a2 e2 =
    (db1, inl (HTTPException 400 ("Request already " +:+ s))).
Proof.
  intros Hfirst Hid s.
  destruct (process_approval_returns _ _ _ _ _ Hfirst)
    as (r & who & Hr & Hst & Hwho & [(Ha & name & Hname & ->)|(Ha & ->)]).
  - subst s. rewrite decide_True by done.
    assert (select_status
              {| db_requests :=
                   <[request_id a1 :=
                       provisioned (t_provisioned e1)
                         (decided "approved" who (notes a1) (t_decision e1) r)]>
                     (db_requests db);
                 provisioned_databases :=
                   provisioned_databases db ++
                   [provisioned_record db (request_id a1) r name e1];
                 db_id_seq := db_id_seq db + 1 |} (request_id a1) =
            Some "provisioned") as Hs.
    { unfold select_status. simpl. by rewrite lookup_insert_eq. }
    split; [done|].
    apply process_approval_not_pending; [by rewrite Hid|done].
  - subst s. rewrite decide_False by done.
    assert (select_status
              {| db_requests :=
                   <[request_id a1 :=
                       decided "rejected" who (notes a1) (t_decision e1) r]>
                     (db_requests db);
                 provisioned_databases := provisioned_databases db;
                 db_id_seq := db_id_seq db |} (request_id a1) =
            Some "rejected") as Hs.
    { unfold select_status. simpl. by rewrite lookup_insert_eq. }
    split; [done|].
    apply process_approval_not_pending; [by rewrite Hid|done].
Qed.

Lemma decide_twice_witness :
  let db1 :=
    (process_approval scenario_db (scenario_decision "approve") scenario_env).1 in
  select_status db1 scenario_id = Some "provisioned" ∧
  process_approval db1 (scenario_decision "reject") scenario_env =
    (db1, inl (HTTPException 400 "Request already provisioned")).
Proof.
  apply (decide_twice scenario_db (scenario_decision "approve") scenario_env
           (scenario_decision "reject") scenario_env _
           (decision_response (scenario_decision "approve")));
    reflexivity.
Defined.

(** ** The Request invariant *)

(** Membership of a literal status in a literal list of statuses. *)
Ltac status_listed :=
  solve [ repeat first [ apply list_elem_of_here | apply list_elem_of_further ] ].

Ltac status_not_listed H :=
  repeat (apply elem_of_cons in H as [H|H]; [discriminate H|]);
  by apply elem_of_nil in H.

Lemma request_invariant_pending r :
  request_invariant r → r_status r = "pending" →
  r_approved_at r = None ∧ r_provisioned_at r = None.
Proof.
  intros (_ & Happ & Hprov) Hst. rewrite Hst in Happ, Hprov.
  split; apply eq_None_not_Some; intros H.
  - apply Happ in H. status_not_listed H.
  - by apply Hprov in H.
Qed.

Lemma request_invariant_decided st who notes now r :
  st = "approved" ∨ st = "rejected" →
  r_provisioned_at r = None →
  request_invariant (decided st who notes now r).
Proof.
  intros Hst Hp. unfold request_invariant. simpl. rewrite Hp.
  destruct Hst as [-> | ->].
  - split; [status_listed|]. split.
    + split; [intros _; status_listed|eauto].
    + split; [by intros [? ?]|discriminate].
  - split; [status_listed|]. split.
    + split; [intros _; status_listed|eauto].
    + split; [by intros [? ?]|discriminate].
Qed.

Lemma request_invariant_provisioned now r :
  is_Some (r_approved_at r) →
  request_invariant (provisioned now r).
Proof.
  intros Happ. unfold request_invariant. simpl.
  split; [status_listed|]. split.
  - split; [intros _; status_listed|done].
  - split; eauto.
Qed.

Lemma create_request_invariant db request uuid4_str now :
  requests_invariant db →
  requests_invariant (create_request db request uuid4_str now).1.
Proof.
  intros Hinv.
  destruct (create_request_cases db request uuid4_str now)
    as [->|(key & row & Hkey & -> & Hst & Happ & Hprov)]; [done|].
  apply map_Forall_insert; [done|]. split; [|done].
  unfold request_invariant. rewrite Hst, Happ, Hprov.
  split; [status_listed|]. split.
  - split; [by intros [? ?]|intros H; status_not_listed H].
  - split; [by intros [? ?]|done].
Qed.

Lemma process_approval_invariant db approval e :
  requests_invariant db →
  requests_invariant (process_approval db approval e).1.
Proof.
  intros Hinv.
  destruct (process_approval_outcome db approval e)
    as [?|r ? ?|r ? ? ?|r who Hr Hst ? ? ?|r who name Hr Hst ? ? ?|r who Hr Hst ? ?];
    try done; simpl.
  - apply map_Forall_insert_2; [|done].
    apply request_invariant_decided; [by left|].
    by apply (request_invariant_pending r (Hinv _ _ Hr)).
  - apply map_Forall_insert_2; [|done].
    by apply request_invariant_provisioned.
  - apply map_Forall_insert_2; [|done].
    apply request_invariant_decided; [by right|].
    by apply (request_invariant_pending r (Hinv _ _ Hr)).
Qed.







Lemma reachable_request_invariant db : reachable db → requests_invariant db.
Proof.
  induction 1 as [|db [request id now|approval e] _ IH].
  - apply map_Forall_empty.
  - by apply create_request_invariant.
  - by apply process_approval_invariant.
Qed.

(** ** Statement-level runs agree with the operation *)

(** Five statements for each of which the store is reached are one
    [process_approval]. *)
Lemma run_call_process_approval db approval e t0 t2 :
  run_call approval (uuid4_hex e)
    [(t0, true); (t_decision e, true); (t2, true);
     (t_insert e, true); (t_provisioned e, true)] db AtSelectStatus =
  ((process_approval db approval e).1,
   outcome_pc (process_approval db approval e).2).
Proof.
  unfold process_approval. simpl.
  destruct (select_status db (request_id approval)) as [s|]; [|done].
  destruct (decide (s ≠ "pending")); [done|]. simpl.
  destruct (update_decision _ _ _ _ _ _) as [err|db1]; [done|]. simpl.
  destruct (decide (action approval = "approve")); [|done].
  unfold _provision_database. simpl.
  destruct (select_details _ _) as [[[[team ty] env] sz]|]; [|done].
  simpl. by destruct (insert_provisioned_database _ _ _ _ _ _ _ _ _).
Qed.

(** Every call ends, returning or raising, within its five statements,
    whatever the store does. *)
Lemma step_statements_left approval hex now accepted db at_pc :
  finished at_pc = false →
  (statements_left (step approval hex now accepted db at_pc).2
   < statements_left at_pc)%nat.
Proof.
  destruct at_pc as [| | |team ty env sz| | |]; simpl; try done; intros _;
    destruct accepted; simpl; try lia.
  - destruct (select_status _ _); simpl; [|lia]. case_decide; simpl; lia.
  - destruct (update_decision _ _ _ _ _ _); simpl; [lia|]. case_decide; simpl; lia.
  - destruct (select_details _ _) as [[[[? ?] ?] ?]|]; simpl; lia.
  - destruct (insert_provisioned_database _ _ _ _ _ _ _ _ _); simpl; lia.
Qed.

Lemma run_call_finishes approval hex inputs db at_pc :
  (statements_left at_pc ≤ length inputs)%nat →
  finished (run_call approval hex inputs db at_pc).2 = true.
Proof.
  revert db at_pc. induction inputs as [|[now accepted] inputs IH];
    intros db at_pc Hlen; simpl in *.
  - destruct at_pc; simpl in *; (done || lia).
  - destruct (finished at_pc) eqn:Hfin.
    + destruct at_pc; try done; simpl; apply IH; simpl; lia.
    + pose proof (step_statements_left approval hex now accepted db at_pc Hfin).
      destruct (step approval hex now accepted db at_pc) as [db' pc'].
      apply IH. simpl in *. lia.
Qed.

(** A schedule that runs one call only is that call run on its own. *)
Lemma run_schedule_alone approval hex nows db at_pc :
  run_schedule ((λ now, (0%nat, now)) <$> nows)
    (db, [{| th_approval := approval; th_hex := hex; th_pc := at_pc |}]) =
  ((run_call approval hex ((λ now, (now, true)) <$> nows) db at_pc).1,
   [{| th_approval := approval; th_hex := hex;
       th_pc := (run_call approval hex ((λ now, (now, true)) <$> nows) db at_pc).2 |}]).
Proof.
  revert db at_pc. induction nows as [|now nows IH]; intros db at_pc; [done|].
  simpl. unfold run_schedule in *. simpl. unfold sched_step at 2. simpl.
  destruct (step approval hex now true db at_pc) as [db' pc'].
  simpl. apply IH.
Qed.

(** ** Request rows and database rows *)

Lemma new_status_not_provisioned approval : new_status approval ≠ "provisioned".
Proof. unfold new_status. by case_decide. Qed.

Lemma step_linked approval hex now accepted db at_pc :
  linked db → inserted approval db at_pc →
  linked (step approval hex now accepted db at_pc).1 ∧
  inserted approval (step approval hex now accepted db at_pc).1
    (step approval hex now accepted db at_pc).2.
Proof.
  intros Hl Hins.
  destruct at_pc as [| | |team ty env sz| | |]; simpl; destruct accepted; simpl;
    try done.
  - destruct (select_status _ _); [|done]. by case_decide.
  - unfold update_decision.
    destruct (varchar 100 (approver approval)) as [who|]; [|done].
    assert (linked
              {| db_requests :=
                   alter (decided (new_status approval) who (notes approval) now)
                     (request_id approval) (db_requests db);
                 provisioned_databases := provisioned_databases db;
                 db_id_seq := db_id_seq db |}) as Hl'.
    { intros id r. simpl. rewrite lookup_alter_Some.
      intros [(<- & r0 & _ & ->)|[_ Hr]] Hst; [|by eapply Hl].
      by destruct (new_status_not_provisioned approval). }
    by case_decide.
  - by destruct (select_details _ _) as [[[[? ?] ?] ?]|].
  - unfold insert_provisioned_database.
    destruct (varchar 100 _) as [name|]; [|done].
    destruct (db_requests db !! request_id approval) as [r0|]; [|done]. simpl.
    split.
    + intros id r Hr Hst. destruct (Hl id r Hr Hst) as (d & Hd & Hid).
      exists d. split; [|done]. apply elem_of_app. by left.
    + eexists. split; [apply elem_of_app; right; apply list_elem_of_here|done].
  - split; [|done].
    intros id r. simpl. rewrite lookup_alter_Some.
    intros [(<- & _)|[_ Hr]] Hst; [done|by eapply Hl].
Qed.

Lemma run_call_linked approval hex inputs db at_pc :
  linked db → inserted approval db at_pc →
  linked (run_call approval hex inputs db at_pc).1.
Proof.
  revert db at_pc. induction inputs as [|[now accepted] inputs IH];
    intros db at_pc Hl Hins; [done|]. simpl.
  destruct (step_linked approval hex now accepted db at_pc Hl Hins) as [Hl' Hins'].
  destruct (step approval hex now accepted db at_pc) as [db' pc'].
  by apply IH.
Qed.

Lemma create_request_consistent db request uuid4_str now :
  consistent db → consistent (create_request db request uuid4_str now).1.
Proof.
  intros [Hl Hb].
  destruct (create_request_cases db request uuid4_str now)
    as [->|(key & row & Hkey & -> & Hst & _)]; [done|]. split.
  - intros id r. simpl. rewrite lookup_insert_Some.
    intros [[<- <-]|[_ Hr]] Hst'; [congruence|by eapply Hl].
  - intros d Hd. specialize (Hb d Hd). unfold select_status in *. simpl in *.
    rewrite lookup_insert_ne; [done|]. intros Heq. by rewrite <- Heq, Hkey in Hb.
Qed.

Lemma process_approval_consistent db approval e :
  consistent db → consistent (process_approval db approval e).1.
Proof.
  intros [Hl Hb].
  destruct (process_approval_outcome db approval e)
    as [?|r ? ?|r ? ? ?|r who Hr Hst ? ? ?|r who name Hr Hst ? ? ?|r who Hr Hst ? ?];
    try done; simpl; split.
  - intros id r'. simpl. rewrite lookup_insert_Some.
    intros [[<- <-]|[_ Hr']] Hst'; [done|by eapply Hl].
  - intros d Hd. specialize (Hb d Hd). unfold select_status in *. simpl in *.
    rewrite lookup_insert_ne; [done|]. intros Heq.
    rewrite <- Heq, Hr in Hb. simpl in Hb. congruence.
  - intros id r'. simpl. rewrite lookup_insert_Some.
    intros [[<- <-]|[_ Hr']] Hst'.
    + eexists. split; [apply elem_of_app; right; apply list_elem_of_here|done].
    + destruct (Hl id r') as (d & Hd & Hid); [done..|].
      exists d. split; [|done]. apply elem_of_app. by left.
  - intros d. simpl. rewrite elem_of_app, list_elem_of_singleton.
    unfold select_status. simpl. intros [Hd| ->].
    + destruct (decide (request_id approval = d_request_id d)) as [<-|Hne].
      * by rewrite lookup_insert_eq.
      * rewrite lookup_insert_ne by done. by apply Hb.
    + simpl. by rewrite lookup_insert_eq.
  - intros id r'. simpl. rewrite lookup_insert_Some.
    intros [[<- <-]|[_ Hr']] Hst'; [done|by eapply Hl].
  - intros d Hd. specialize (Hb d Hd). unfold select_status in *. simpl in *.
    rewrite lookup_insert_ne; [done|]. intros Heq.
    rewrite <- Heq, Hr in Hb. simpl in Hb. congruence.
Qed.

Lemma consistent_empty : consistent empty_database.
Proof.
  split.
  - intros id r. simpl. by rewrite lookup_empty.
  - intros d. simpl. by intros ?%elem_of_nil.
Qed.

(** C3, as the code has it.  When the calls run one after the other,
    each to its end, and a statement is refused only for a key or for a
    value wider than its column, the two writes of an approval go
    together: in every state reached by submitting and deciding, a
    request is provisioned exactly when a database row is linked to it.
    When the calls run one after the other and any statement of a
    decision may fail, a provisioned request still always has its
    database row (the INSERT comes first and nothing is rolled back). *)
Theorem provisioning_writes_consistent db :
  (reachable db → consistent db) ∧
  (reachable_with_failures db → linked db).
Proof.
  split.
  - induction 1 as [|db [request id now|approval e] _ IH].
    + apply consistent_empty.
    + by apply create_request_consistent.
    + by apply process_approval_consistent.
  - induction 1 as [|db request id now _ IH|db approval hex inputs _ IH].
    + apply consistent_empty.
    + destruct (create_request_cases db request id now)
        as [->|(key & row & Hkey & -> & Hst & _)]; [done|].
      intros id' r. simpl. rewrite lookup_insert_Some.
      intros [[<- <-]|[_ Hr]] Hst'; [congruence|by eapply IH].
    + by apply run_call_linked.
Qed.

Lemma provisioning_writes_consistent_witness :
  consistent
    (run_operation scenario_db (Decide (scenario_decision "approve") scenario_env)).
Proof.
  apply (provisioning_writes_consistent
           (run_operation scenario_db
              (Decide (scenario_decision "approve") scenario_env))).
  apply reachable_op.
  apply (reachable_op empty_database (Submit scenario_request scenario_id 1)).
  apply reachable_empty.
Defined.

(** C3 as stated fails.  Submit the scenario request and approve it with
    the last statement, the UPDATE to [provisioned], refused by the
    store: the call raises, the inserted database row stays, and its
    request is left [approved]. *)
Lemma partial_provisioning_reachable :
  let run :=
    run_call (scenario_decision "approve") (uuid4_hex scenario_env)
      [(2, true); (2, true); (3, true); (3, true); (4, false)]
      scenario_db AtSelectStatus in
  reachable_with_failures run.1 ∧
  run.2 = Raised storage_failure ∧
  (∃ d, provisioned_databases run.1 = [d] ∧ d_request_id d = scenario_id) ∧
  select_status run.1 scenario_id = Some "approved" ∧
  ¬ backed run.1.
Proof.
  intros run. split; [|split; [|split; [|split]]].
  - apply rwf_decide.
    apply (rwf_submit empty_database scenario_request scenario_id 1).
    apply rwf_empty.
  - reflexivity.
  - eexists. split; reflexivity.
  - reflexivity.
  - intros Hb.
    specialize (Hb (provisioned_record scenario_db scenario_id scenario_row
                       "data-eng_prod_postgres_3f2b8c1d" scenario_env)).
    assert (select_status run.1 scenario_id = Some "provisioned") as Hst.
    { apply Hb. vm_compute. apply list_elem_of_here. }
    vm_compute in Hst. discriminate.
Qed.

(** A database row also loses its provisioned request when statements
    of two calls interleave: after an approve has run to its end, the
    decision UPDATE of a reject that had passed the pending check before
    sets the request to [rejected]. *)
Lemma stale_reject_keeps_row :
  let final :=
    run_schedule
      [(0%nat, 2); (1%nat, 2); (0%nat, 3); (0%nat, 4); (0%nat, 5); (0%nat, 6);
       (1%nat, 7)]
      (scenario_db,
       [spawn (scenario_decision "approve") "3f2b8c1d9e4a4f6b8a7c5d2e1f0a9b8c";
        spawn (scenario_decision "reject") "a1b2c3d4e5f64789a0b1c2d3e4f5a6b7"]) in
  d_request_id <$> provisioned_databases final.1 = [scenario_id] ∧
  select_status final.1 scenario_id = Some "rejected".
Proof. vm_compute. done. Qed.

(** ** Several decisions on one request *)

Lemma decide_in_turn_settled db id s calls :
  select_status db id = Some s → s ≠ "pending" →
  Forall (λ c, request_id c.1 = id) calls →
  decide_in_turn db calls = (db, (λ _, inl (InvalidTransition s)) <$> calls).
Proof.
  intros Hs Hne. induction 1 as [|[a e] calls Hid _ IH]; [done|].
  simpl in *. subst id.
  rewrite (process_approval_not_pending db a e s Hs Hne).
  by rewrite IH.
Qed.

(** C2, as the code has it.  When the decisions on one pending request
    run one after the other and the store accepts every statement of the
    first, the first succeeds and each of the others fails with
    InvalidTransition naming the status it left; one database row is
    added when the first action is approve and none otherwise.  Nothing
    in the code keeps the statements of two calls apart. *)
Theorem decide_in_turn_one_success db approval e rest r :
  db_requests db !! request_id approval = Some r →
  r_status r = "pending" →
  accepted_by_store approval r (uuid4_hex e) →
  Forall (λ c, request_id c.1 = request_id approval) rest →
  let s := if decide (action approval = "approve") then "provisioned" else "rejected" in
  let run := decide_in_turn db ((approval, e) :: rest) in
  run.2 = inr (decision_response approval)
            :: ((λ _, inl (InvalidTransition s)) <$> rest) ∧
  run.1 = (process_approval db approval e).1 ∧
  length (provisioned_databases run.1) =
    (length (provisioned_databases db) +
     if decide (action approval = "approve") then 1 else 0)%nat.
Proof.
  intros Hr Hst [[who Hwho] Hname] Hrest s run. subst run. simpl.
  destruct (process_approval db approval e) as [db1 res] eqn:Hfirst.
  assert (res = inr (decision_response approval) ∧
          select_status db1 (request_id approval) = Some s ∧ s ≠ "pending" ∧
          length (provisioned_databases db1) =
            (length (provisioned_databases db) +
             if decide (action approval = "approve") then 1 else 0)%nat)
    as (-> & Hs & Hne & Hlen).
  { subst s. destruct (decide (action approval = "approve")) as [Ha|Ha].
    - destruct (Hname Ha) as [name Hname'].
      rewrite (process_approval_approve db approval e r Hr Hst who name Ha Hwho
                 Hname') in Hfirst.
      injection Hfirst as <- <-. unfold select_status. simpl.
      rewrite lookup_insert_eq, length_app. done.
    - rewrite (process_approval_other db approval e r Hr Hst who Ha Hwho) in Hfirst.
      injection Hfirst as <- <-. unfold select_status. simpl.
      rewrite lookup_insert_eq. split; [done|]. split; [done|]. split; [done|lia]. }
  rewrite (decide_in_turn_settled db1 (request_id approval) s rest Hs Hne Hrest).
  done.
Qed.

Lemma decide_in_turn_one_success_witness :
  let run :=
    decide_in_turn scenario_db
      [(scenario_decision "approve", scenario_env);
       (scenario_decision "approve", scenario_env);
       (scenario_decision "reject", scenario_env)] in
  run.2 = [inr (decision_response (scenario_decision "approve"));
           inl (InvalidTransition "provisioned");
           inl (InvalidTransition "provisioned")] ∧
  run.1 =
    (process_approval scenario_db (scenario_decision "approve") scenario_env).1 ∧
  length (provisioned_databases run.1) = 1%nat.
Proof.
  apply (decide_in_turn_one_success scenario_db (scenario_decision "approve")
           scenario_env
           [(scenario_decision "approve", scenario_env);
            (scenario_decision "reject", scenario_env)] scenario_row);
    [reflexivity | reflexivity | | repeat constructor].
  split; [|intros _]; apply fits_within; vm_compute; lia.
Defined.

(** C2 as stated fails at N = 2.  Two approvals of the pending scenario
    request, each reading the status before the other writes it: both
    calls return, none raises, and two database rows are linked to the
    one request. *)
Lemma interleaved_approvals_both_succeed :
  let final :=
    run_schedule
      [(0%nat, 2); (1%nat, 2);
       (0%nat, 3); (0%nat, 4); (0%nat, 5); (0%nat, 6);
       (1%nat, 7); (1%nat, 8); (1%nat, 9); (1%nat, 10)]
      (scenario_db,
       [spawn (scenario_decision "approve") "3f2b8c1d9e4a4f6b8a7c5d2e1f0a9b8c";
        spawn (scenario_decision "approve") "a1b2c3d4e5f64789a0b1c2d3e4f5a6b7"]) in
  select_status scenario_db scenario_id = Some "pending" ∧
  length (filter returned final.2) = 2%nat ∧
  th_pc <$> final.2 =
    [Returned (decision_response (scenario_decision "approve"));
     Returned (decision_response (scenario_decision "approve"))] ∧
  length (filter raised_invalid_transition final.2) = 0%nat ∧
  d_request_id <$> provisioned_databases final.1 = [scenario_id; scenario_id] ∧
  d_db_name <$> provisioned_databases final.1 =
    ["data-eng_prod_postgres_3f2b8c1d"; "data-eng_prod_postgres_a1b2c3d4"].
Proof. vm_compute. done. Qed.

(** ** Listing requests *)

Global Instance newer_first_total : Total newer_first.
Proof. intros x y. unfold newer_first. lia. Qed.

Global Instance newer_first_trans : Transitive newer_first.
Proof. intros x y z. unfold newer_first. lia. Qed.

Lemma StronglySorted_take {A} (R : relation A) n (l : list A) :
  StronglySorted R l → StronglySorted R (take n l).
Proof.
  intros Hs. rewrite <- (take_drop n l) in Hs.
  by apply StronglySorted_app_1_l in Hs.
Qed.

Lemma summaries_sorted rows :
  StronglySorted newer_first rows →
  StronglySorted newer_first_summary (summary <$> rows).
Proof. apply StronglySorted_fmap. by intros x y. Qed.

Lemma order_by_created_at_desc_sorted rows :
  StronglySorted newer_first (order_by_created_at_desc rows).
Proof. apply StronglySorted_merge_sort; apply _. Qed.

Lemma order_by_created_at_desc_perm rows :
  order_by_created_at_desc rows ≡ₚ rows.
Proof. apply merge_sort_Permutation. Qed.

(** C9, as the code has it.  [get_requests] changes nothing and returns
    the summaries most recently created first.  With a non-empty status
    filter they are exactly the stored requests with that status, each
    once, however many.  With no filter, or with the empty string as
    filter, they are the first 50 of all stored requests in that order
    (all of them when there are at most 50). *)
Theorem get_requests_result db status :
  let result := (get_requests db status).2 in
  let stored := map_to_list (db_requests db) in
  (get_requests db status).1 = db ∧
  StronglySorted newer_first_summary result ∧
  (∀ s, status = Some s → s ≠ "" →
     result ≡ₚ summary <$> filter (λ kr, r_status kr.2 = s) stored ∧
     (∀ x, x ∈ result ↔
        ∃ id r, db_requests db !! id = Some r ∧ r_status r = s ∧
                x = summary (id, r))) ∧
  (status = None ∨ status = Some "" →
     ∃ rows, rows ≡ₚ stored ∧ StronglySorted newer_first rows ∧
             result = summary <$> take 50 rows ∧
             length result = (50 `min` length stored)%nat).
Proof.
  intros result stored. subst result stored. unfold get_requests.
  split; [by destruct (truthy status)|].
  split.
  { destruct (truthy status); simpl; apply summaries_sorted;
      [|apply StronglySorted_take]; apply order_by_created_at_desc_sorted. }
  split.
  - intros s -> Hs. simpl. rewrite decide_False by done. simpl.
    assert (summary <$> order_by_created_at_desc
              (filter (λ kr, r_status kr.2 = s) (map_to_list (db_requests db)))
            ≡ₚ summary <$> filter (λ kr, r_status kr.2 = s)
                             (map_to_list (db_requests db))) as Hperm.
    { by rewrite order_by_created_at_desc_perm. }
    split; [done|].
    intros x. rewrite Hperm, list_elem_of_fmap. split.
    + intros ([id r] & -> & [Hst Hin]%list_elem_of_filter).
      apply elem_of_map_to_list in Hin. by exists id, r.
    + intros (id & r & Hr & Hst & ->). exists (id, r). split; [done|].
      apply list_elem_of_filter. split; [done|].
      by apply elem_of_map_to_list.
  - intros Hnone.
    assert (truthy status = None) as -> by (by destruct Hnone as [->| ->]).
    simpl. exists (order_by_created_at_desc (map_to_list (db_requests db))).
    split; [apply order_by_created_at_desc_perm|].
    split; [apply order_by_created_at_desc_sorted|].
    split; [done|].
    by rewrite length_fmap, length_take, order_by_created_at_desc_perm.
Qed.

Lemma get_requests_result_witness :
  (get_requests scenario_db (Some "pending")).2 ≡ₚ
    summary <$> filter (λ kr, r_status kr.2 = "pending")
                  (map_to_list (db_requests scenario_db)) ∧
  (∀ x, x ∈ (get_requests scenario_db (Some "pending")).2 ↔
     ∃ id r, db_requests scenario_db !! id = Some r ∧ r_status r = "pending" ∧
             x = summary (id, r)).
Proof.
  destruct (get_requests_result scenario_db (Some "pending"))
    as (_ & _ & Hfilter & _).
  apply Hfilter; [reflexivity | discriminate].
Defined.

(** C9 as stated fails for the filter [""], which [if status:] takes for
    no filter: the pending scenario request is returned although its
    status is not the filter. *)
Lemma get_requests_empty_filter :
  (get_requests scenario_db (Some "")).2 = [summary (scenario_id, scenario_row)] ∧
  s_status (summary (scenario_id, scenario_row)) = "pending" ∧
  filter (λ kr, r_status kr.2 = "") (map_to_list (db_requests scenario_db)) = [].
Proof. vm_compute. done. Qed.

(** * Further properties of the service *)

(** ** What calls leave alone *)

Lemma same_submission_refl r : same_submission r r.
Proof. by repeat split. Qed.

Lemma same_submission_trans r1 r2 r3 :
  same_submission r1 r2 → same_submission r2 r3 → same_submission r1 r3.
Proof.
  unfold same_submission. intros (?&?&?&?&?&?) (?&?&?&?&?&?).
  repeat split; congruence.
Qed.

Lemma grows_refl db : grows db db.
Proof.
  split; [done|]. split; [|done].
  intros id r r' Hr Hr'. rewrite Hr in Hr'. injection Hr' as <-.
  apply same_submission_refl.
Qed.

Lemma grows_trans db1 db2 db3 : grows db1 db2 → grows db2 db3 → grows db1 db3.
Proof.
  intros (Hn1 & Hs1 & Hp1) (Hn2 & Hs2 & Hp2). split; [|split].
  - intros id. by rewrite Hn2, Hn1.
  - intros id r r' Hr Hr'.
    destruct (db_requests db2 !! id) as [r2|] eqn:Hr2.
    + eapply same_submission_trans; [by eapply Hs1|by eapply Hs2].
    + apply Hn1 in Hr2. congruence.
  - by etrans.
Qed.

(** Rewriting the decision or the provisioning columns of one request. *)
Lemma alter_grows (f : db_requests_row → db_requests_row) id db pds seq :
  (∀ r, same_submission r (f r)) →
  provisioned_databases db `prefix_of` pds →
  grows db {| db_requests := alter f id (db_requests db);
              provisioned_databases := pds; db_id_seq := seq |}.
Proof.
  intros Hf Hp. split; [|split]; simpl; [| |done].
  - intros id'. by rewrite lookup_alter_None.
  - intros id' r r' Hr. rewrite lookup_alter_Some.
    intros [(_ & r0 & Hr0 & ->)|[_ Hr']].
    + rewrite Hr in Hr0. injection Hr0 as <-. apply Hf.
    + rewrite Hr in Hr'. injection Hr' as <-. apply same_submission_refl.
Qed.

Lemma step_grows approval hex now accepted db at_pc :
  grows db (step approval hex now accepted db at_pc).1.
Proof.
  destruct at_pc as [| | |team ty env sz| | |]; simpl; destruct accepted; simpl;
    try apply grows_refl.
  - destruct (select_status _ _); [|apply grows_refl].
    case_decide; apply grows_refl.
  - unfold update_decision.
    destruct (varchar 100 (approver approval)) as [who|]; [|apply grows_refl].
    assert (grows db {| db_requests :=
                          alter (decided (new_status approval) who (notes approval) now)
                            (request_id approval) (db_requests db);
                        provisioned_databases := provisioned_databases db;
                        db_id_seq := db_id_seq db |}).
    { apply alter_grows; [|done]. intros r. by repeat split. }
    by case_decide.
  - destruct (select_details _ _) as [[[[? ?] ?] ?]|]; apply grows_refl.
  - unfold insert_provisioned_database.
    destruct (varchar 100 _) as [name|]; [|apply grows_refl].
    destruct (db_requests db !! request_id approval); [|apply grows_refl].
    simpl. split; [done|]. split; [|by apply prefix_app_r].
    simpl. intros id r r' Hr Hr'. rewrite Hr in Hr'. injection Hr' as <-.
    apply same_submission_refl.
  - apply alter_grows; [|done]. intros r. by repeat split.
Qed.

Lemma step_touches_only approval hex now accepted db at_pc :
  touches_only (request_id approval) db (step approval hex now accepted db at_pc).1.
Proof.
  intros id' Hne.
  destruct at_pc as [| | |team ty env sz| | |]; simpl; destruct accepted; simpl;
    try done.
  - destruct (select_status _ _); [|done]. by case_decide.
  - unfold update_decision.
    destruct (varchar 100 (approver approval)) as [who|]; [|done].
    case_decide; simpl; by rewrite lookup_alter_ne.
  - by destruct (select_details _ _) as [[[[? ?] ?] ?]|].
  - unfold insert_provisioned_database.
    destruct (varchar 100 _) as [name|]; [|done].
    by destruct (db_requests db !! request_id approval).
  - by rewrite lookup_alter_ne.
Qed.

Lemma run_call_grows approval hex inputs db at_pc :
  grows db (run_call approval hex inputs db at_pc).1 ∧
  touches_only (request_id approval) db (run_call approval hex inputs db at_pc).1.
Proof.
  revert db at_pc. induction inputs as [|[now accepted] inputs IH];
    intros db at_pc; simpl.
  - split; [apply grows_refl|done].
  - pose proof (step_grows approval hex now accepted db at_pc) as Hg.
    pose proof (step_touches_only approval hex now accepted db at_pc) as Ht.
    destruct (step approval hex now accepted db at_pc) as [db' pc'].
    destruct (IH db' pc') as [Hg' Ht']. split.
    + by eapply grows_trans.
    + intros id' Hne. by rewrite Ht', Ht.
Qed.

(** An operation is its attempt. *)
Lemma run_operation_attempt db op : run_operation db op = run_attempt db (attempt_of op).
Proof.
  destruct op as [request id now|approval e]; [done|].
  unfold run_operation, run_attempt, attempt_of.
  by rewrite run_call_process_approval.
Qed.

Lemma decision_grows_op db approval e :
  touches_only (request_id approval) db (process_approval db approval e).1 ∧
  grows db (process_approval db approval e).1.
Proof.
  change (process_approval db approval e).1
    with (run_operation db (Decide approval e)).
  rewrite run_operation_attempt. split; apply run_call_grows.
Qed.

(** X1. Whatever its outcome, and whichever of its statements the store
    refuses, a decision changes no request but the one it names; it adds
    and removes no request, leaves the submitted columns of every request
    (team, type, environment, size, purpose, [created_at]) as they were,
    and only appends to [provisioned_databases]. *)
Theorem decision_frame db approval :
  (∀ hex inputs,
     touches_only (request_id approval) db
       (run_call approval hex inputs db AtSelectStatus).1 ∧
     grows db (run_call approval hex inputs db AtSelectStatus).1) ∧
  (∀ e,
     touches_only (request_id approval) db (process_approval db approval e).1 ∧
     grows db (process_approval db approval e).1).
Proof.
  split.
  - intros hex inputs. split; apply run_call_grows.
  - intros e.
    change (process_approval db approval e).1
      with (run_operation db (Decide approval e)).
    rewrite run_operation_attempt. split; apply run_call_grows.
Qed.

(** ** Requests over the life of the service *)

Lemma run_call_finished approval hex inputs db at_pc :
  finished at_pc = true →
  run_call approval hex inputs db at_pc = (db, at_pc).
Proof.
  intros Hfin. induction inputs as [|[now accepted] inputs IH]; [done|].
  simpl. by destruct at_pc.
Qed.

(** A decision on a request that is not pending changes nothing, whatever
    the store does. *)
Lemma run_call_not_pending approval hex inputs db r :
  db_requests db !! request_id approval = Some r → r_status r ≠ "pending" →
  (run_call approval hex inputs db AtSelectStatus).1 = db.
Proof.
  intros Hr Hst. destruct inputs as [|[now accepted] inputs]; [done|].
  simpl. destruct accepted.
  - unfold select_status. rewrite Hr. simpl.
    rewrite decide_True by done. by rewrite run_call_finished.
  - by rewrite run_call_finished.
Qed.

Lemma create_request_keeps db request uuid4_str now id r :
  db_requests db !! id = Some r →
  db_requests (create_request db request uuid4_str now).1 !! id = Some r.
Proof.
  intros Hr.
  destruct (create_request_cases db request uuid4_str now)
    as [->|(key & row & Hfree & -> & _)]; [done|]. simpl.
  rewrite lookup_insert_ne; [done|]. intros ->. congruence.
Qed.

Lemma create_request_tables db request uuid4_str now :
  provisioned_databases (create_request db request uuid4_str now).1 =
    provisioned_databases db ∧
  db_id_seq (create_request db request uuid4_str now).1 = db_id_seq db.
Proof.
  by destruct (create_request_cases db request uuid4_str now)
    as [->|(key & row & _ & -> & _)].
Qed.

Lemma run_attempt_keeps db a id r :
  db_requests db !! id = Some r →
  (∃ r', db_requests (run_attempt db a) !! id = Some r' ∧ same_submission r r') ∧
  provisioned_databases db `prefix_of` provisioned_databases (run_attempt db a).
Proof.
  intros Hr. destruct a as [request uuid4_str now|approval hex inputs]; simpl.
  - split.
    + exists r. split; [by apply create_request_keeps|apply same_submission_refl].
    + by rewrite (proj1 (create_request_tables db request uuid4_str now)).
  - destruct (run_call_grows approval hex inputs db AtSelectStatus)
      as [(Hnone & Hsame & Hpre) _].
    split; [|done].
    destruct (db_requests (run_call approval hex inputs db AtSelectStatus).1 !! id)
      as [r'|] eqn:Hr'.
    + exists r'. split; [done|]. by eapply Hsame.
    + apply Hnone in Hr'. congruence.
Qed.

(** X2. A stored request is never deleted and the columns it was
    submitted with never change, and a database row, once inserted, stays
    as it is and where it is: this holds across any sequence of
    submissions and decisions, whichever statements the store refuses. *)
Theorem stored_request_is_kept db attempts id r :
  db_requests db !! id = Some r →
  (∃ r', db_requests (foldl run_attempt db attempts) !! id = Some r' ∧
         same_submission r r') ∧
  provisioned_databases db `prefix_of`
    provisioned_databases (foldl run_attempt db attempts).
Proof.
  revert db r. induction attempts as [|a attempts IH]; intros db r Hr; simpl.
  - split; [|done]. exists r. split; [done|apply same_submission_refl].
  - destruct (run_attempt_keeps db a id r Hr) as [(r1 & Hr1 & Hs1) Hp1].
    destruct (IH _ _ Hr1) as [(r' & Hr' & Hs') Hp'].
    split; [|by etrans].
    exists r'. split; [done|]. by eapply same_submission_trans.
Qed.

Lemma stored_request_is_kept_witness :
  let later :=
    foldl run_attempt scenario_db
      [TryDecide (scenario_decision "approve") (uuid4_hex scenario_env)
         [(2, true); (2, true); (3, true); (3, false)];
       TrySubmit scenario_request "0d9c7b1e-5a3f-4e2b-8c6d-1f0a9b8c7d6e" 5;
       TryDecide (scenario_decision "reject") (uuid4_hex scenario_env)
         [(6, true); (6, true)]] in
  (∃ r', db_requests later !! scenario_id = Some r' ∧
         same_submission scenario_row r') ∧
  provisioned_databases scenario_db `prefix_of` provisioned_databases later.
Proof.
  apply (stored_request_is_kept scenario_db _ scenario_id scenario_row).
  reflexivity.
Defined.

Lemma not_pending_is_kept db attempts id r :
  db_requests db !! id = Some r → r_status r ≠ "pending" →
  db_requests (foldl run_attempt db attempts) !! id = Some r.
Proof.
  intros Hr Hst. revert db Hr.
  induction attempts as [|a attempts IH]; intros db Hr; [done|]. simpl.
  apply IH. destruct a as [request uuid4_str now|approval hex inputs]; simpl.
  - by apply create_request_keeps.
  - destruct (decide (id = request_id approval)) as [->|Hne].
    + by rewrite (run_call_not_pending approval hex inputs db r).
    + destruct (run_call_grows approval hex inputs db AtSelectStatus) as [_ Ht].
      by rewrite Ht.
Qed.

(** X3. Every status other than [pending] is final: once a request has
    left [pending] (rejected, provisioned, or left approved by a failed
    provisioning), no sequence of submissions and decisions changes any
    column of it. *)
Theorem decided_request_is_final db attempts id r :
  db_requests db !! id = Some r → r_status r ≠ "pending" →
  db_requests (foldl run_attempt db attempts) !! id = Some r.
Proof. apply not_pending_is_kept. Qed.

Lemma decided_request_is_final_witness :
  let rejected :=
    run_operation scenario_db (Decide (scenario_decision "reject") scenario_env) in
  ∃ r, db_requests rejected !! scenario_id = Some r ∧ r_status r = "rejected" ∧
    db_requests
      (foldl run_attempt rejected
         [TryDecide (scenario_decision "approve") (uuid4_hex scenario_env)
            [(5, true); (5, true); (6, true); (6, true); (7, true)];
          TrySubmit scenario_request scenario_id 8]) !! scenario_id = Some r.
Proof.
  intros rejected. eexists. split; [reflexivity|]. split; [reflexivity|].
  apply (decided_request_is_final rejected); [reflexivity|discriminate].
Defined.

Lemma elem_of_get_requests db s x :
  s ≠ "" →
  x ∈ (get_requests db (Some s)).2 ↔
  ∃ id r, db_requests db !! id = Some r ∧ r_status r = s ∧ x = summary (id, r).
Proof.
  intros Hs. unfold get_requests. simpl. rewrite decide_False by done. simpl.
  rewrite order_by_created_at_desc_perm, list_elem_of_fmap. split.
  - intros ([id r] & -> & [Hst Hin]%list_elem_of_filter).
    apply elem_of_map_to_list in Hin. by exists id, r.
  - intros (id & r & Hr & Hst & ->). exists (id, r). split; [done|].
    apply list_elem_of_filter. split; [done|]. by apply elem_of_map_to_list.
Qed.

Lemma length_string_app (s1 s2 : string) :
  String.length (s1 +:+ s2) = (String.length s1 + String.length s2)%nat.
Proof. induction s1 as [|c s1 IH]; simpl; [done|]. by rewrite IH. Qed.

Lemma length_substring_le (n m : nat) (s : string) :
  (String.length (String.substring n m s) ≤ m)%nat.
Proof.
  revert n m. induction s as [|c s IH]; intros [|n] [|m]; simpl; try lia.
  - specialize (IH 0%nat m). lia.
  - apply (IH n 0%nat).
  - apply (IH n (S m)).
Qed.

Lemma varchar_None n s : varchar n s = None → (n < String.length s)%nat.
Proof.
  unfold varchar. case_decide; [done|]. intros _. lia.
Qed.

(** A name the column refuses comes from a long team, environment and
    type: the separators and the suffix are at most 11 characters. *)
Lemma refused_name_is_wide r hex :
  varchar 100 (db_name_for r hex) = None →
  (90 ≤ String.length (r_team_name r) + String.length (r_environment r) +
        String.length (r_db_type r))%nat.
Proof.
  intros Hlen%varchar_None. unfold db_name_for, db_name_of in Hlen.
  rewrite !length_string_app in Hlen. simpl in Hlen.
  pose proof (length_substring_le 0 8 hex). lia.
Qed.

Lemma reachable_statuses db id r :
  reachable db → db_requests db !! id = Some r →
  r_status r ∈ ["pending"; "approved"; "rejected"; "provisioned"] ∧
  (r_status r = "approved" →
   (90 ≤ String.length (r_team_name r) + String.length (r_environment r) +
         String.length (r_db_type r))%nat).
Proof.
  intros Hreach. revert id r.
  induction Hreach as [|db [request uuid4_str now|approval e] _ IH]; intros id r.
  - simpl. by rewrite lookup_empty.
  - simpl.
    destruct (create_request_cases db request uuid4_str now)
      as [->|(key & row & _ & -> & Hst & _)]; [apply IH|]. simpl.
    rewrite lookup_insert_Some. intros [[_ <-]|[_ Hr]]; [|by eapply IH].
    rewrite Hst. split; [status_listed|done].
  - simpl.
    destruct (process_approval_outcome db approval e)
      as [?|r0 ? ?|r0 ? ? ?|r0 who Hr0 Hst0 ? ? Hname|r0 who name Hr0 Hst0 ? ? ?
         |r0 who Hr0 Hst0 ? ?]; simpl; try apply IH.
    + rewrite lookup_insert_Some. intros [[_ <-]|[_ Hr]]; [|by eapply IH].
      simpl. split; [status_listed|]. intros _.
      by apply (refused_name_is_wide r0 (uuid4_hex e)).
    + rewrite lookup_insert_Some. intros [[_ <-]|[_ Hr]]; [|by eapply IH].
      simpl. split; [status_listed|done].
    + rewrite lookup_insert_Some. intros [[_ <-]|[_ Hr]]; [|by eapply IH].
      simpl. split; [status_listed|done].
Qed.

(** X4. When the calls run one after the other, each to its end, and a
    statement is refused only for a key or for a value wider than its
    column, a request is left [approved] only if its team name,
    environment and type have 90 characters or more between them: the
    name generated for it is then wider than its column.  Every status
    is [pending], [approved], [rejected] or [provisioned], and listing
    the requests under any other non-empty status returns nothing. *)
Theorem approved_only_when_name_refused db :
  reachable db →
  (∀ id r, db_requests db !! id = Some r →
     r_status r ∈ ["pending"; "approved"; "rejected"; "provisioned"] ∧
     (r_status r = "approved" →
      (90 ≤ String.length (r_team_name r) + String.length (r_environment r) +
            String.length (r_db_type r))%nat)) ∧
  (∀ s, s ≠ "" → s ∉ ["pending"; "approved"; "rejected"; "provisioned"] →
     (get_requests db (Some s)).2 = []).
Proof.
  intros Hreach. split; [intros id r; by apply reachable_statuses|].
  intros s Hne Hs. apply elem_of_nil_inv. intros x Hx.
  apply elem_of_get_requests in Hx as (id & r & Hr & Hst & _); [|done].
  apply Hs. rewrite <- Hst. by eapply reachable_statuses.
Qed.

Lemma approved_only_when_name_refused_witness :
  let db :=
    run_operation wide_team_db (Decide (scenario_decision "approve") scenario_env) in
  (∀ id r, db_requests db !! id = Some r →
     r_status r ∈ ["pending"; "approved"; "rejected"; "provisioned"] ∧
     (r_status r = "approved" →
      (90 ≤ String.length (r_team_name r) + String.length (r_environment r) +
            String.length (r_db_type r))%nat)) ∧
  (∀ s, s ≠ "" → s ∉ ["pending"; "approved"; "rejected"; "provisioned"] →
     (get_requests db (Some s)).2 = []).
Proof.
  apply approved_only_when_name_refused.
  apply reachable_op.
  apply (reachable_op empty_database (Submit wide_team_request scenario_id 1)).
  apply reachable_empty.
Defined.

(** ** A provisioning that fails *)

Lemma step_provisioning_status approval hex now accepted db at_pc :
  provisioning_status approval db at_pc →
  provisioning_status approval (step approval hex now accepted db at_pc).1
    (step approval hex now accepted db at_pc).2.
Proof.
  destruct at_pc as [| | |team ty env sz| | |]; simpl; try done; intros Hst;
    destruct accepted; simpl; try done.
  - by destruct (select_details _ _) as [[[[? ?] ?] ?]|].
  - unfold insert_provisioned_database.
    destruct (varchar 100 _) as [name|]; [|done].
    by destruct (db_requests db !! request_id approval).
  - apply select_status_Some in Hst as (r & Hr & _).
    unfold select_status. simpl. by rewrite lookup_alter_eq, Hr.
Qed.

Lemma run_call_provisioning_status approval hex inputs db at_pc :
  provisioning_status approval db at_pc →
  provisioning_status approval (run_call approval hex inputs db at_pc).1
    (run_call approval hex inputs db at_pc).2.
Proof.
  revert db at_pc. induction inputs as [|[now accepted] inputs IH];
    intros db at_pc Hst; [done|]. simpl.
  pose proof (step_provisioning_status approval hex now accepted db at_pc Hst).
  destruct (step approval hex now accepted db at_pc) as [db' pc'].
  by apply IH.
Qed.

Lemma run_call_cons approval hex now accepted rest db at_pc :
  run_call approval hex ((now, accepted) :: rest) db at_pc =
  run_call approval hex rest (step approval hex now accepted db at_pc).1
    (step approval hex now accepted db at_pc).2.
Proof. simpl. by destruct (step approval hex now accepted db at_pc). Qed.

(** The first two statements of an approval of a pending request. *)
Lemma run_call_approve_started db approval hex t0 t1 rest r who :
  db_requests db !! request_id approval = Some r →
  r_status r = "pending" →
  action approval = "approve" →
  varchar 100 (approver approval) = Some who →
  run_call approval hex ((t0, true) :: (t1, true) :: rest) db AtSelectStatus =
  run_call approval hex rest
    {| db_requests :=
         alter (decided "approved" who (notes approval) t1) (request_id approval)
           (db_requests db);
       provisioned_databases := provisioned_databases db;
       db_id_seq := db_id_seq db |} AtSelectDetails.
Proof.
  intros Hr Hst Ha Hwho. rewrite run_call_cons.
  assert (step approval hex t0 true db AtSelectStatus = (db, AtUpdateDecision)) as ->.
  { simpl. unfold select_status. rewrite Hr. simpl. rewrite Hst.
    by rewrite decide_False by (intros H; by apply H). }
  rewrite run_call_cons. simpl. unfold update_decision, new_status.
  by rewrite Hwho, !decide_True by done.
Qed.

(** X5. An approval of a pending request whose decision UPDATE is
    accepted (the store is reached and the approver fits its column) but
    which then raises (a later statement is refused) leaves the request
    [approved], and it stays so: whatever is attempted afterwards, every
    decision on it fails with InvalidTransition, "Request already
    approved".  Nothing retries the provisioning. *)
Theorem refused_provisioning_is_stuck db approval hex t0 t1 rest r :
  db_requests db !! request_id approval = Some r →
  r_status r = "pending" →
  action approval = "approve" →
  fits 100 (approver approval) →
  let run :=
    run_call approval hex ((t0, true) :: (t1, true) :: rest) db AtSelectStatus in
  (∃ err, run.2 = Raised err) →
  select_status run.1 (request_id approval) = Some "approved" ∧
  ∀ attempts a2 e2, request_id a2 = request_id approval →
    process_approval (foldl run_attempt run.1 attempts) a2 e2 =
      (foldl run_attempt run.1 attempts,
       inl (HTTPException 400 "Request already approved")).
Proof.
  intros Hr Hst Ha [who Hwho] run [err Herr].
  assert (provisioning_status approval run.1 run.2) as Hfinal.
  { subst run.
    rewrite (run_call_approve_started db approval hex t0 t1 rest r who) by done.
    apply run_call_provisioning_status. simpl.
    unfold select_status. simpl. by rewrite lookup_alter_eq, Hr. }
  rewrite Herr in Hfinal. simpl in Hfinal.
  split; [done|]. intros attempts a2 e2 Hid.
  apply select_status_Some in Hfinal as (r' & Hr' & Hst').
  apply (process_approval_not_pending _ a2 e2 "approved"); [|done].
  rewrite Hid. apply select_status_Some. exists r'. split; [|done].
  apply not_pending_is_kept; [done|]. by rewrite Hst'.
Qed.

Lemma refused_provisioning_is_stuck_witness :
  let run :=
    run_call (scenario_decision "approve") (uuid4_hex scenario_env)
      [(2, true); (2, true); (3, true); (3, false)] scenario_db AtSelectStatus in
  select_status run.1 scenario_id = Some "approved" ∧
  ∀ attempts a2 e2, request_id a2 = scenario_id →
    process_approval (foldl run_attempt run.1 attempts) a2 e2 =
      (foldl run_attempt run.1 attempts,
       inl (HTTPException 400 "Request already approved")).
Proof.
  apply (refused_provisioning_is_stuck scenario_db (scenario_decision "approve")
           (uuid4_hex scenario_env) 2 2 [(3, true); (3, false)] scenario_row);
    [reflexivity | reflexivity | reflexivity | | by eexists].
  apply fits_within. vm_compute. lia.
Defined.

(** ** The rows of [provisioned_databases] *)

Lemma row_of_request_grows db db' d :
  grows db db' → row_of_request db d → row_of_request db' d.
Proof.
  intros (Hnone & Hsame & _) (r & Hr & Hact & Hhost & Hty & Henv & Hport & Hcost).
  destruct (db_requests db' !! d_request_id d) as [r'|] eqn:Hr'.
  - destruct (Hsame _ _ _ Hr Hr') as (_ & Hty' & Henv' & Hsz' & _).
    exists r'. rewrite Hty', Henv', Hsz'. done.
  - apply Hnone in Hr'. congruence.
Qed.

Lemma step_rows_derived approval hex now accepted db at_pc :
  rows_derived db → details_read approval db at_pc →
  rows_derived (step approval hex now accepted db at_pc).1 ∧
  details_read approval (step approval hex now accepted db at_pc).1
    (step approval hex now accepted db at_pc).2.
Proof.
  intros Hrows Hread.
  pose proof (step_grows approval hex now accepted db at_pc) as Hg.
  destruct at_pc as [| | |team ty env sz| | |]; simpl in *; destruct accepted;
    simpl in *; try done.
  - destruct (select_status _ _); [|done]. by case_decide.
  - unfold update_decision in *.
    destruct (varchar 100 (approver approval)) as [who|]; [|done].
    assert (rows_derived
              {| db_requests :=
                   alter (decided (new_status approval) who (notes approval) now)
                     (request_id approval) (db_requests db);
                 provisioned_databases := provisioned_databases db;
                 db_id_seq := db_id_seq db |}) as Hrows'.
    { eapply Forall_impl; [exact Hrows|].
      intros d. apply row_of_request_grows. by case_decide. }
    by case_decide.
  - by destruct (select_details _ _) as [[[[? ?] ?] ?]|] eqn:Hd.
  - unfold insert_provisioned_database in *. unfold select_details in Hread.
    destruct (varchar 100 _) as [name|]; [|done].
    destruct (db_requests db !! request_id approval) as [r|] eqn:Hr; [|done].
    simpl in *. injection Hread as <- <- <- <-. split; [|done].
    apply Forall_app. split.
    + eapply Forall_impl; [exact Hrows|]. intros d. by apply row_of_request_grows.
    + apply Forall_singleton. exists r. simpl. by rewrite Hr.
  - split; [|done]. eapply Forall_impl; [exact Hrows|].
    intros d. by apply row_of_request_grows.
Qed.

Lemma run_call_rows_derived approval hex inputs db at_pc :
  rows_derived db → details_read approval db at_pc →
  rows_derived (run_call approval hex inputs db at_pc).1.
Proof.
  revert db at_pc. induction inputs as [|[now accepted] inputs IH];
    intros db at_pc Hrows Hread; [done|]. simpl.
  destruct (step_rows_derived approval hex now accepted db at_pc Hrows Hread)
    as [Hrows' Hread'].
  destruct (step approval hex now accepted db at_pc) as [db' pc'].
  by apply IH.
Qed.

Lemma create_request_rows_derived db request uuid4_str now :
  rows_derived db → rows_derived (create_request db request uuid4_str now).1.
Proof.
  intros Hrows. unfold rows_derived.
  rewrite (proj1 (create_request_tables db request uuid4_str now)).
  eapply Forall_impl; [exact Hrows|].
  intros d (r & Hr & Hrest). exists r. split; [|done].
  by apply create_request_keeps.
Qed.

Lemma reachable_rows_derived db : reachable_with_failures db → rows_derived db.
Proof.
  induction 1 as [|db request id now _ IH|db approval hex inputs _ IH].
  - apply Forall_nil_2.
  - by apply create_request_rows_derived.
  - by apply run_call_rows_derived.
Qed.

Lemma reachable_reachable_with_failures db :
  reachable db → reachable_with_failures db.
Proof.
  induction 1 as [|db [request id now|approval e] _ IH].
  - apply rwf_empty.
  - by apply rwf_submit.
  - change (reachable_with_failures (run_operation db (Decide approval e))).
    rewrite run_operation_attempt. by apply rwf_decide.
Qed.

Lemma reachable_consistent db : reachable db → consistent db.
Proof.
  induction 1 as [|db [request id now|approval e] _ IH].
  - apply consistent_empty.
  - by apply create_request_consistent.
  - by apply process_approval_consistent.
Qed.

Lemma reachable_one_row_per_request db :
  reachable db → NoDup (d_request_id <$> provisioned_databases db).
Proof.
  intros Hreach. pose proof (reachable_consistent db Hreach) as [_ Hb].
  induction Hreach as [|db [request id now|approval e] Hreach IH].
  - apply NoDup_nil_2.
  - simpl. rewrite (proj1 (create_request_tables db request id now)).
    apply IH. by apply reachable_consistent.
  - specialize (IH (proj2 (reachable_consistent db Hreach))).
    pose proof (proj2 (reachable_consistent db Hreach)) as Hb0. simpl.
    destruct (process_approval_outcome db approval e)
      as [?|r ? ?|r ? ? ?|r who Hr Hst ? ? ?|r who name Hr Hst ? ? ?|r who Hr Hst ? ?];
      simpl; try done.
    rewrite fmap_app. apply NoDup_app. split; [done|].
    split; [|apply NoDup_singleton].
    intros id (d & -> & Hd)%list_elem_of_fmap Hid. simpl in Hid.
    apply list_elem_of_singleton in Hid.
    specialize (Hb0 d Hd). unfold select_status in Hb0.
    rewrite Hid, Hr in Hb0. simpl in Hb0. congruence.
Qed.

(** X6. In every state the service reaches, also when statements are
    refused, each row of [provisioned_databases] belongs to a stored
    request and carries what that request says: it is [active], on the
    fixed host, with the type and environment of the request, the port of
    that type and the cost of the request's size. *)
Theorem provisioned_rows_follow_requests db d :
  reachable_with_failures db →
  d ∈ provisioned_databases db →
  ∃ r, db_requests db !! d_request_id d = Some r ∧
       d_status d = "active" ∧
       d_host d = "db-cluster.example.com" ∧
       d_db_type d = r_db_type r ∧
       d_environment d = r_environment r ∧
       (d_estimated_cost d, d_port d) = derive (r_size r) (r_db_type r).
Proof.
  intros Hreach Hd. pose proof (reachable_rows_derived db Hreach) as Hrows.
  unfold rows_derived in Hrows. rewrite Forall_forall in Hrows.
  destruct (Hrows d Hd) as (r & Hr & Hact & Hhost & Hty & Henv & Hport & Hcost).
  exists r. unfold derive. by rewrite Hport, Hcost.
Qed.

Lemma provisioned_rows_follow_requests_witness :
  let run :=
    run_call (scenario_decision "approve") (uuid4_hex scenario_env)
      [(2, true); (2, true); (3, true); (3, true); (4, false)]
      scenario_db AtSelectStatus in
  ∃ d r, provisioned_databases run.1 = [d] ∧
         db_requests run.1 !! d_request_id d = Some r ∧
         d_status d = "active" ∧
         d_host d = "db-cluster.example.com" ∧
         d_db_type d = r_db_type r ∧
         d_environment d = r_environment r ∧
         (d_estimated_cost d, d_port d) = derive (r_size r) (r_db_type r).
Proof.
  intros run.
  destruct (provisioned_rows_follow_requests run.1
              (provisioned_record scenario_db scenario_id scenario_row
                       "data-eng_prod_postgres_3f2b8c1d" scenario_env))
    as (r & Hr); [| |by eexists _, r].
  - apply rwf_decide.
    apply (rwf_submit empty_database scenario_request scenario_id 1).
    apply rwf_empty.
  - vm_compute. apply list_elem_of_here.
Defined.

Lemma elem_of_provisioned_requests db id r :
  (id, r) ∈ provisioned_requests db ↔
  db_requests db !! id = Some r ∧ r_status r = "provisioned".
Proof.
  unfold provisioned_requests.
  rewrite list_elem_of_filter, elem_of_map_to_list. simpl. tauto.
Qed.

Lemma provisioned_requests_NoDup db : NoDup (provisioned_requests db).*1.
Proof.
  apply NoDup_fmap_2_strong.
  - intros [id r] [id' r'] [? Hin]%elem_of_provisioned_requests
      [? Hin']%elem_of_provisioned_requests Heq. simpl in Heq. subst id'.
    congruence.
  - apply NoDup_filter, NoDup_map_to_list.
Qed.

Lemma rows_match_provisioned_requests db :
  reachable db →
  d_request_id <$> provisioned_databases db ≡ₚ (provisioned_requests db).*1.
Proof.
  intros Hreach.
  pose proof (reachable_one_row_per_request db Hreach) as Hnodup.
  destruct (reachable_consistent db Hreach) as [Hl Hb].
  apply NoDup_Permutation; [done|apply provisioned_requests_NoDup|].
  intros id. rewrite !list_elem_of_fmap. split.
  - intros (d & -> & Hd). apply Hb in Hd.
    apply select_status_Some in Hd as (r & Hr & Hst).
    exists (d_request_id d, r). split; [done|].
    by apply elem_of_provisioned_requests.
  - intros ([id' r] & -> & [Hr Hst]%elem_of_provisioned_requests).
    destruct (Hl id' r Hr Hst) as (d & Hd & Hid). by exists d.
Qed.

(** X7. When the calls run one after the other, each to its end, and a
    statement is refused only for a key or for a value wider than its
    column, the rows of [provisioned_databases] and the provisioned
    requests match one to one: no two rows belong to the same request,
    and the requests the rows name are exactly the requests with status
    [provisioned]. *)
Theorem one_database_per_provisioned_request db :
  reachable db →
  NoDup (d_request_id <$> provisioned_databases db) ∧
  d_request_id <$> provisioned_databases db ≡ₚ (provisioned_requests db).*1 ∧
  length (provisioned_databases db) = length (provisioned_requests db).
Proof.
  intros Hreach.
  pose proof (rows_match_provisioned_requests db Hreach) as Hperm.
  split; [by apply reachable_one_row_per_request|]. split; [done|].
  apply Permutation_length in Hperm. by rewrite !length_fmap in Hperm.
Qed.

Lemma one_database_per_provisioned_request_witness :
  let db :=
    run_operation scenario_db (Decide (scenario_decision "approve") scenario_env) in
  NoDup (d_request_id <$> provisioned_databases db) ∧
  d_request_id <$> provisioned_databases db ≡ₚ (provisioned_requests db).*1 ∧
  length (provisioned_databases db) = length (provisioned_requests db).
Proof.
  apply one_database_per_provisioned_request.
  apply reachable_op.
  apply (reachable_op empty_database (Submit scenario_request scenario_id 1)).
  apply reachable_empty.
Defined.

(** ** Listing provisioned databases *)

Global Instance newest_database_first_total : Total newest_database_first.
Proof. intros x y. unfold newest_database_first. lia. Qed.

Global Instance newest_database_first_trans : Transitive newest_database_first.
Proof. intros x y z. unfold newest_database_first. lia. Qed.

Lemma get_databases_perm db :
  (get_databases db).2 ≡ₚ
  entry <$> filter (λ dr, d_status dr.1 = "active")
              (omap (join_request db) (provisioned_databases db)).
Proof. unfold get_databases. simpl. by rewrite merge_sort_Permutation. Qed.

Lemma join_request_Some db d dr :
  join_request db d = Some dr ↔
  ∃ r, db_requests db !! d_request_id d = Some r ∧ dr = (d, r).
Proof. unfold join_request. rewrite fmap_Some. firstorder. Qed.

(** X8. [get_databases] changes nothing and returns, most recently
    created first, one entry for every row of [provisioned_databases]
    that is [active] and whose request is stored, with that request's
    team name; a row whose status is not [active] is left out. *)
Theorem get_databases_result db :
  (get_databases db).1 = db ∧
  StronglySorted newest_entry_first (get_databases db).2 ∧
  (get_databases db).2 ≡ₚ
    entry <$> filter (λ dr, d_status dr.1 = "active")
                (omap (join_request db) (provisioned_databases db)) ∧
  (∀ x, x ∈ (get_databases db).2 ↔
     ∃ d r, d ∈ provisioned_databases db ∧ d_status d = "active" ∧
            db_requests db !! d_request_id d = Some r ∧ x = entry (d, r)).
Proof.
  split; [done|]. split; [|split; [apply get_databases_perm|]].
  - unfold get_databases. simpl.
    apply StronglySorted_fmap with (R1 := newest_database_first); [by intros x y|].
    apply StronglySorted_merge_sort; apply _.
  - intros x. rewrite get_databases_perm, list_elem_of_fmap. split.
    + intros ([d r] & -> & [Hact Hin]%list_elem_of_filter).
      apply list_elem_of_omap in Hin as (d' & Hd' & Hjoin).
      apply join_request_Some in Hjoin as (r' & Hr' & [= <- <-]).
      by exists d, r.
    + intros (d & r & Hd & Hact & Hr & ->). exists (d, r). split; [done|].
      apply list_elem_of_filter. split; [done|].
      apply list_elem_of_omap. exists d. split; [done|].
      apply join_request_Some. by exists r.
Qed.

(** With every row active and joined to its request, the listing drops
    none. *)
Lemma joined_rows db (rows : list provisioned_databases_row) :
  Forall (row_of_request db) rows →
  (filter (λ dr, d_status dr.1 = "active") (omap (join_request db) rows)).*1 = rows.
Proof.
  induction 1 as [|d rows (r & Hr & Hact & _) _ IH]; [done|].
  simpl. unfold join_request at 1. rewrite Hr. simpl.
  rewrite filter_cons_True by done. simpl. f_equal. exact IH.
Qed.

Lemma get_databases_rows db :
  rows_derived db →
  ∃ joined,
    (get_databases db).2 ≡ₚ entry <$> joined ∧
    joined.*1 = provisioned_databases db ∧
    Forall (λ dr, db_requests db !! d_request_id dr.1 = Some dr.2) joined.
Proof.
  intros Hrows.
  exists (filter (λ dr, d_status dr.1 = "active")
            (omap (join_request db) (provisioned_databases db))).
  split; [apply get_databases_perm|]. split; [by apply joined_rows|].
  apply Forall_forall. intros [d r] [_ Hin]%list_elem_of_filter.
  apply list_elem_of_omap in Hin as (d' & _ & Hjoin).
  by apply join_request_Some in Hjoin as (r' & Hr' & [= <- <-]).
Qed.

(** X9. In every state the service reaches, also when statements are
    refused, [get_databases] lists every row of [provisioned_databases],
    each once; each entry is [active], on the fixed host, and its port
    and cost are those the tables give for the type and size of its
    request. *)
Theorem get_databases_lists_every_row db :
  reachable_with_failures db →
  length (get_databases db).2 = length (provisioned_databases db) ∧
  e_db_id <$> (get_databases db).2 ≡ₚ d_db_id <$> provisioned_databases db ∧
  (∀ x, x ∈ (get_databases db).2 →
     e_status x = "active" ∧
     e_host x = "db-cluster.example.com" ∧
     e_port x = port (e_db_type x) ∧
     e_estimated_monthly_cost x ∈ [5000; 15000; 50000; 10000]).
Proof.
  intros Hreach. pose proof (reachable_rows_derived db Hreach) as Hrows.
  destruct (get_databases_rows db Hrows) as (joined & Hperm & Hfst & _).
  split; [|split].
  - rewrite Hperm, length_fmap, <- Hfst. by rewrite length_fmap.
  - rewrite Hperm, <- Hfst, <- !list_fmap_compose. done.
  - intros x. rewrite Hperm. intros ([d r] & -> & Hin)%list_elem_of_fmap.
    assert (d ∈ provisioned_databases db) as Hd.
    { rewrite <- Hfst. apply list_elem_of_fmap. by exists (d, r). }
    unfold rows_derived in Hrows. rewrite Forall_forall in Hrows.
    destruct (Hrows d Hd) as (r' & _ & Hact & Hhost & Hty & _ & Hport & Hcost).
    simpl. rewrite Hport, Hcost, Hty. repeat (split; [done|]).
    unfold estimated_cost. rewrite cost_map_lookup.
    repeat case_decide; simpl; status_listed.
Qed.

Lemma get_databases_lists_every_row_witness :
  let run :=
    run_call (scenario_decision "approve") (uuid4_hex scenario_env)
      [(2, true); (2, true); (3, true); (3, true); (4, false)]
      scenario_db AtSelectStatus in
  length (get_databases run.1).2 = 1%nat ∧
  e_db_id <$> (get_databases run.1).2 ≡ₚ [1] ∧
  (∀ x, x ∈ (get_databases run.1).2 →
     e_status x = "active" ∧
     e_host x = "db-cluster.example.com" ∧
     e_port x = port (e_db_type x) ∧
     e_estimated_monthly_cost x ∈ [5000; 15000; 50000; 10000]).
Proof.
  intros run. apply (get_databases_lists_every_row run.1).
  apply rwf_decide.
  apply (rwf_submit empty_database scenario_request scenario_id 1).
  apply rwf_empty.
Defined.

Lemma foldl_add_foldr (l : list Z) (a : Z) : foldl Z.add a l = a + foldr Z.add 0 l.
Proof.
  revert a. induction l as [|x l IH]; intros a; simpl; [lia|].
  rewrite IH. lia.
Qed.

Lemma sum_costs_perm (l k : list Z) : l ≡ₚ k → sum_costs l = sum_costs k.
Proof.
  intros Hperm. unfold sum_costs. rewrite !foldl_add_foldr. f_equal.
  induction Hperm; simpl; lia.
Qed.

(** X10. When the calls run one after the other, each to its end, and a
    statement is refused only for a key or for a value wider than its
    column, [GET /databases] changes nothing and reports the provisioned
    requests: [total_count] is the number of listed databases and the
    number of requests with status [provisioned], and
    [total_monthly_cost] is the sum, over those requests, of the cost the
    table gives for their size. *)
Theorem list_databases_totals db :
  reachable db →
  (list_databases db).1 = db ∧
  l_total_count (list_databases db).2 = length (l_databases (list_databases db).2) ∧
  l_total_count (list_databases db).2 = length (provisioned_requests db) ∧
  l_total_monthly_cost (list_databases db).2 =
    sum_costs ((λ kr, estimated_cost (r_size kr.2)) <$> provisioned_requests db).
Proof.
  intros Hreach.
  pose proof (reachable_rows_derived db (reachable_reachable_with_failures db Hreach))
    as Hrows.
  destruct (get_databases_rows db Hrows) as (joined & Hperm & Hfst & _).
  pose proof (rows_match_provisioned_requests db Hreach) as Hids.
  unfold list_databases.
  destruct (get_databases db) as [db' databases] eqn:Hget.
  assert (db' = db) as -> by (by injection Hget as <- _).
  simpl in *. split; [done|]. split; [done|]. split.
  - rewrite Hperm, length_fmap, <- (length_fmap fst), Hfst.
    apply Permutation_length in Hids. by rewrite !length_fmap in Hids.
  - set (cost_of := λ id : string,
           default 0 ((λ r, estimated_cost (r_size r)) <$> db_requests db !! id)).
    trans (sum_costs (cost_of <$> (d_request_id <$> provisioned_databases db))).
    + apply sum_costs_perm. rewrite Hperm, <- Hfst, <- !list_fmap_compose.
      apply reflexive_eq. apply list_fmap_ext. intros i [d r] Hi. simpl.
      unfold rows_derived in Hrows. rewrite Forall_forall in Hrows.
      assert (d ∈ provisioned_databases db) as Hd.
      { rewrite <- Hfst. apply list_elem_of_fmap. exists (d, r). split; [done|].
        by eapply list_elem_of_lookup_2. }
      destruct (Hrows d Hd) as (r' & Hr' & _ & _ & _ & _ & _ & Hcost).
      unfold cost_of. by rewrite Hr'.
    + rewrite (sum_costs_perm _ (cost_of <$> (provisioned_requests db).*1))
        by (by rewrite Hids).
      f_equal. rewrite <- list_fmap_compose.
      apply list_fmap_ext. intros i [id r] Hi. simpl.
      apply list_elem_of_lookup_2, elem_of_provisioned_requests in Hi as [Hr _].
      unfold cost_of. by rewrite Hr.
Qed.

Lemma list_databases_totals_witness :
  let db :=
    run_operation scenario_db (Decide (scenario_decision "approve") scenario_env) in
  (list_databases db).1 = db ∧
  l_total_count (list_databases db).2 = length (l_databases (list_databases db).2) ∧
  l_total_count (list_databases db).2 = length (provisioned_requests db) ∧
  l_total_monthly_cost (list_databases db).2 =
    sum_costs ((λ kr, estimated_cost (r_size kr.2)) <$> provisioned_requests db).
Proof.
  apply list_databases_totals.
  apply reachable_op.
  apply (reachable_op empty_database (Submit scenario_request scenario_id 1)).
  apply reachable_empty.
Defined.

(** ** Submitting, deciding and the listings *)

Lemma insert_request_within db id request now :
  within_widths id request →
  insert_request db id request now =
    match db_requests db !! id with
    | Some _ => inl (StorageError "duplicate key value violates unique constraint")
    | None =>
      inr {| db_requests :=
               <[id := {| r_team_name := team_name request;
                          r_db_type := db_type request;
                          r_environment := environment request;
                          r_size := size request;
                          r_purpose := purpose request;
                          r_status := "pending";
                          r_created_at := now;
                          r_approved_at := None;
                          r_provisioned_at := None;
                          r_approver := None;
                          r_approval_notes := None |}]> (db_requests db);
             provisioned_databases := provisioned_databases db;
             db_id_seq := db_id_seq db |}
    end.
Proof.
  intros (Hid & Hteam & Hty & Henv & Hsz). unfold insert_request.
  by rewrite !varchar_within by done.
Qed.

(** X11. A submission whose fields are within the widths of their
    columns, under an id of at most 36 characters not yet stored, returns
    that id with status ['pending'], and from then on the request is
    listed as pending with the fields submitted and [created_at] the time
    of the INSERT; the pending list is otherwise as before, and nothing
    else in the state changes.  A submission under an id already stored
    raises and changes nothing: the stored request is not overwritten.
    A submission with a value its column refuses raises and stores
    nothing. *)
Theorem create_request_outcome db request id now :
  (within_widths id request → db_requests db !! id = None →
     let db' := (create_request db request id now).1 in
     (create_request db request id now).2 =
       inr {| resp_request_id := id; resp_status := "pending";
              resp_message := "Request submitted for approval" |} ∧
     (∀ x, x ∈ (get_requests db' (Some "pending")).2 ↔
        x = {| s_request_id := id; s_team_name := team_name request;
               s_db_type := db_type request; s_environment := environment request;
               s_size := size request; s_status := "pending";
               s_created_at := now; s_purpose := purpose request |} ∨
        x ∈ (get_requests db (Some "pending")).2) ∧
     touches_only id db db' ∧
     provisioned_databases db' = provisioned_databases db) ∧
  ((String.length id ≤ 36)%nat → is_Some (db_requests db !! id) →
     ∃ what, create_request db request id now = (db, inl (StorageError what))) ∧
  (¬ fits 36 id ∨ ¬ fits 100 (team_name request) ∨ ¬ fits 20 (db_type request) ∨
   ¬ fits 20 (environment request) ∨ ¬ fits 20 (size request) →
     create_request db request id now = (db, inl too_long)).
Proof.
  split; [|split].
  - intros Hwidths Hid.
    destruct (create_request db request id now) as [db1 res] eqn:Heq.
    unfold create_request in Heq.
    rewrite (insert_request_within db id request now Hwidths), Hid in Heq.
    injection Heq as <- <-. cbn [fst snd].
    split; [done|]. split; [|split; [|done]].
    + intros x. rewrite !elem_of_get_requests by done. simpl. split.
      * intros (id' & r & Hr & Hst & ->).
        apply lookup_insert_Some in Hr as [[<- <-]|[Hne Hr]]; [by left|].
        right. by exists id', r.
      * intros [->|(id' & r & Hr & Hst & ->)].
        -- eexists id, _. rewrite lookup_insert_eq. done.
        -- exists id', r. rewrite lookup_insert_ne; [done|]. intros ->. congruence.
    + intros id' Hne. simpl. by rewrite lookup_insert_ne.
  - intros Hlen [r Hr]. unfold create_request, insert_request.
    rewrite (varchar_within 36 id Hlen).
    destruct (varchar 100 (team_name request)); [|by eexists].
    destruct (varchar 20 (db_type request)); [|by eexists].
    destruct (varchar 20 (environment request)); [|by eexists].
    destruct (varchar 20 (size request)); [|by eexists].
    rewrite Hr. by eexists.
  - unfold fits, create_request, insert_request. intros Hrefused.
    destruct (varchar 36 id) as [key|]; [|done].
    destruct (varchar 100 (team_name request)); [|done].
    destruct (varchar 20 (db_type request)); [|done].
    destruct (varchar 20 (environment request)); [|done].
    destruct (varchar 20 (size request)); [|done].
    by destruct Hrefused as [[]|[[]|[[]|[[]|[]]]]].
Qed.

Lemma create_request_outcome_witness :
  let db' := (create_request empty_database scenario_request scenario_id 1).1 in
  (create_request empty_database scenario_request scenario_id 1).2 =
    inr {| resp_request_id := scenario_id; resp_status := "pending";
           resp_message := "Request submitted for approval" |} ∧
  (∀ x, x ∈ (get_requests db' (Some "pending")).2 ↔
     x = {| s_request_id := scenario_id; s_team_name := "data-eng";
            s_db_type := "postgres"; s_environment := "prod";
            s_size := "large"; s_status := "pending";
            s_created_at := 1; s_purpose := "x" |} ∨
     x ∈ (get_requests empty_database (Some "pending")).2) ∧
  touches_only scenario_id empty_database db' ∧
  provisioned_databases db' = [].
Proof.
  apply (create_request_outcome empty_database scenario_request scenario_id 1).
  - vm_compute. repeat split; lia.
  - reflexivity.
Defined.

(** X12. A decision that succeeds moves its request from one listing to
    another: the request was listed as pending before the call; after it
    the request is no longer listed as pending, it is listed under
    [provisioned] (after an approve) or [rejected] (otherwise), and it is
    never listed under [approved]. *)
Theorem decided_request_changes_listing db approval e db' ret :
  process_approval db approval e = (db', inr ret) →
  let id := request_id approval in
  let s := if decide (action approval = "approve") then "provisioned" else "rejected" in
  (∃ x, x ∈ (get_requests db (Some "pending")).2 ∧ s_request_id x = id) ∧
  (∀ x, x ∈ (get_requests db' (Some "pending")).2 → s_request_id x ≠ id) ∧
  (∀ x, x ∈ (get_requests db' (Some "approved")).2 → s_request_id x ≠ id) ∧
  (∃ x, x ∈ (get_requests db' (Some s)).2 ∧ s_request_id x = id).
Proof.
  intros Hcall id s.
  destruct (process_approval_returns _ _ _ _ _ Hcall)
    as (r & who & Hr & Hst & Hwho & Hcases).
  assert (∃ r', db_requests db' !! id = Some r' ∧ r_status r' = s) as (r' & Hr' & Hst').
  { subst s id.
    destruct Hcases as [(Ha & name & Hname & ->)|(Ha & ->)]; simpl;
      rewrite lookup_insert_eq; eexists; (split; [done|]); simpl.
    - by rewrite decide_True by done.
    - by rewrite decide_False by done. }
  assert (s ≠ "" ∧ s ≠ "pending" ∧ s ≠ "approved") as (Hs1 & Hs2 & Hs3).
  { subst s. by case_decide. }
  split; [|split; [|split]].
  - exists (summary (id, r)). split; [|done].
    apply elem_of_get_requests; [done|]. by exists id, r.
  - intros x (id' & r0 & Hr0 & Hst0 & ->)%elem_of_get_requests; [|done].
    simpl. intros ->. congruence.
  - intros x (id' & r0 & Hr0 & Hst0 & ->)%elem_of_get_requests; [|done].
    simpl. intros ->. congruence.
  - exists (summary (id, r')). split; [|done].
    apply elem_of_get_requests; [done|]. by exists id, r'.
Qed.

Lemma decided_request_changes_listing_witness :
  let db' :=
    (process_approval scenario_db (scenario_decision "approve") scenario_env).1 in
  (∃ x, x ∈ (get_requests scenario_db (Some "pending")).2 ∧
        s_request_id x = scenario_id) ∧
  (∀ x, x ∈ (get_requests db' (Some "pending")).2 → s_request_id x ≠ scenario_id) ∧
  (∀ x, x ∈ (get_requests db' (Some "approved")).2 → s_request_id x ≠ scenario_id) ∧
  (∃ x, x ∈ (get_requests db' (Some "provisioned")).2 ∧
        s_request_id x = scenario_id).
Proof.
  apply (decided_request_changes_listing scenario_db (scenario_decision "approve")
           scenario_env _ (decision_response (scenario_decision "approve"))).
  reflexivity.
Defined.

(** X13. Without a filter the cap of 50 drops only the oldest requests:
    a stored request that is not returned was created no later than any
    request that is returned; and when at most 50 requests are stored,
    all of them are returned. *)
Theorem get_requests_cap_keeps_newest db :
  (∀ x id r,
     x ∈ (get_requests db None).2 →
     db_requests db !! id = Some r →
     summary (id, r) ∉ (get_requests db None).2 →
     r_created_at r ≤ s_created_at x) ∧
  ((length (map_to_list (db_requests db)) ≤ 50)%nat →
     (get_requests db None).2 ≡ₚ summary <$> map_to_list (db_requests db)).
Proof.
  unfold get_requests. simpl.
  set (rows := order_by_created_at_desc (map_to_list (db_requests db))).
  assert (rows ≡ₚ map_to_list (db_requests db)) as Hperm
    by apply order_by_created_at_desc_perm.
  split.
  - intros x id r (y & -> & Hy)%list_elem_of_fmap Hr Hout.
    assert ((id, r) ∈ rows) as Hin.
    { rewrite Hperm. by apply elem_of_map_to_list. }
    rewrite <- (take_drop 50 rows) in Hin.
    apply elem_of_app in Hin as [Hin|Hin].
    { destruct Hout. by apply list_elem_of_fmap_2. }
    pose proof (order_by_created_at_desc_sorted (map_to_list (db_requests db)))
      as Hsorted.
    fold rows in Hsorted. rewrite <- (take_drop 50 rows) in Hsorted.
    by apply (StronglySorted_app_1_elem_of _ _ _ y (id, r)) in Hsorted.
  - intros Hlen. rewrite take_ge; [by rewrite Hperm|].
    by rewrite Hperm.
Qed.

Lemma get_requests_cap_keeps_newest_witness :
  (get_requests scenario_db None).2 ≡ₚ
    summary <$> map_to_list (db_requests scenario_db) ∧
  length (map_to_list (db_requests crowded_db)) = 51%nat ∧
  length (get_requests crowded_db None).2 = 50%nat ∧
  ∀ x, x ∈ (get_requests crowded_db None).2 → 1 ≤ s_created_at x.
Proof.
  split; [|split; [|split]].
  - apply (get_requests_cap_keeps_newest scenario_db). vm_compute. lia.
  - vm_compute. reflexivity.
  - vm_compute. reflexivity.
  - intros x Hx.
    apply (proj1 (get_requests_cap_keeps_newest crowded_db) x (crowded_id 1)
             scenario_row Hx).
    + vm_compute. reflexivity.
    + intros Hin. apply (list_elem_of_fmap_2 s_request_id) in Hin.
      revert Hin. apply (bool_decide_unpack _). vm_compute. reflexivity.
Defined.

(** ** From submission to the catalogue *)

Lemma list_databases_eq db :
  list_databases db =
    (db, {| l_databases := (get_databases db).2;
            l_total_count := length (get_databases db).2;
            l_total_monthly_cost :=
              sum_costs (e_estimated_monthly_cost <$> (get_databases db).2) |}).
Proof. done. Qed.

Lemma omap_ext_Forall {A B} (f g : A → option B) (l : list A) :
  Forall (λ x, f x = g x) l → omap f l = omap g l.
Proof.
  induction 1 as [|x l Hx _ IH]; [done|]. simpl. rewrite Hx.
  destruct (g x); [f_equal|]; exact IH.
Qed.

Lemma sum_costs_cons x l : sum_costs (x :: l) = x + sum_costs l.
Proof. unfold sum_costs. simpl. rewrite !foldl_add_foldr. lia. Qed.

(** The entries of rows already stored do not change while requests keep
    their submitted columns. *)
Lemma entries_grow db db' (rows : list provisioned_databases_row) :
  grows db db' →
  Forall (row_of_request db) rows →
  entry <$> filter (λ dr, d_status dr.1 = "active") (omap (join_request db') rows) =
  entry <$> filter (λ dr, d_status dr.1 = "active") (omap (join_request db) rows).
Proof.
  intros (Hnone & Hsame & _).
  induction 1 as [|d rows (r & Hr & Hact & _) _ IH]; [done|].
  destruct (db_requests db' !! d_request_id d) as [r'|] eqn:Hr'.
  - destruct (Hsame _ _ _ Hr Hr') as (Hteam & _).
    rewrite !(omap_app _ [d] rows), !filter_app, !fmap_app. f_equal; [|exact IH].
    simpl. unfold join_request. rewrite Hr, Hr'. simpl.
    rewrite !filter_cons_True by done. simpl. f_equal.
    unfold entry. simpl. by rewrite Hteam.
  - apply Hnone in Hr'. congruence.
Qed.

(** Approving a pending request adds its entry to the listing and leaves
    the other entries as they were. *)
Lemma get_databases_after_approve db approval e r who name :
  rows_derived db →
  db_requests db !! request_id approval = Some r →
  r_status r = "pending" →
  action approval = "approve" →
  varchar 100 (approver approval) = Some who →
  varchar 100 (db_name_for r (uuid4_hex e)) = Some name →
  (get_databases (process_approval db approval e).1).2 ≡ₚ
    entry (provisioned_record db (request_id approval) r name e, r)
      :: (get_databases db).2.
Proof.
  intros Hrows Hr Hst Ha Hwho Hname.
  destruct (decision_grows_op db approval e) as [_ Hg].
  revert Hg.
  rewrite (process_approval_approve db approval e r Hr Hst who name Ha Hwho Hname).
  intros Hg.
  etrans; [apply get_databases_perm|].
  etrans; [|apply perm_skip; symmetry; apply get_databases_perm].
  cbn [fst provisioned_databases] in *.
  rewrite omap_app, filter_app, fmap_app.
  rewrite (entries_grow db _ _ Hg Hrows).
  match goal with
  | |- _ ++ ?new ≡ₚ ?x :: _ => assert (new = [x]) as ->
  end.
  { simpl. unfold join_request. simpl. by rewrite lookup_insert_eq. }
  symmetry. apply Permutation_cons_append.
Qed.

(** X14. From submission to the catalogue: in any state the service
    reaches, submitting a request under a fresh id and approving it,
    each call running alone and to its end, with the submitted fields
    and the id within the widths of their columns, an approver the store
    accepts and a generated name of at most 100 characters, succeeds,
    leaves the request [provisioned] with [provisioned_at] set, and adds
    exactly one entry to [GET /databases], with the submitted team, type
    and environment, the port of the type and the cost of the size;
    [total_count] grows by one and [total_monthly_cost] by that cost. *)
Theorem submit_approve_list db request id now who notes e :
  reachable_with_failures db →
  db_requests db !! id = None →
  within_widths id request →
  fits 100 who →
  (String.length (db_name_of (team_name request) (environment request)
                    (db_type request) (uuid4_hex e)) ≤ 100)%nat →
  let approval :=
    {| request_id := id; action := "approve"; approver := who; notes := notes |} in
  let db1 := (create_request db request id now).1 in
  let db2 := (process_approval db1 approval e).1 in
  let new :=
    {| e_db_id := db_id_seq db + 1;
       e_db_name := db_name_of (team_name request) (environment request)
                      (db_type request) (uuid4_hex e);
       e_db_type := db_type request;
       e_environment := environment request;
       e_host := "db-cluster.example.com";
       e_port := port (db_type request);
       e_estimated_monthly_cost := estimated_cost (size request);
       e_status := "active";
       e_created_at := t_insert e;
       e_team_name := team_name request |} in
  (process_approval db1 approval e).2 =
    inr {| resp_request_id := id; resp_status := "approved";
           resp_message := "Request approved successfully" |} ∧
  (∃ r, db_requests db2 !! id = Some r ∧ r_status r = "provisioned" ∧
        r_provisioned_at r = Some (t_provisioned e)) ∧
  l_databases (list_databases db2).2 ≡ₚ new :: l_databases (list_databases db).2 ∧
  l_total_count (list_databases db2).2 = S (l_total_count (list_databases db).2) ∧
  l_total_monthly_cost (list_databases db2).2 =
    l_total_monthly_cost (list_databases db).2 + estimated_cost (size request).
Proof.
  intros Hreach Hid Hwidths [who' Hwho] Hname approval db1 db2 new.
  assert (rows_derived db1) as Hrows1.
  { apply create_request_rows_derived. by apply reachable_rows_derived. }
  assert (∃ r1, db_requests db1 !! id = Some r1 ∧ r_status r1 = "pending" ∧
                r_team_name r1 = team_name request ∧
                r_db_type r1 = db_type request ∧
                r_environment r1 = environment request ∧
                r_size r1 = size request ∧
                provisioned_databases db1 = provisioned_databases db ∧
                db_id_seq db1 = db_id_seq db ∧
                (get_databases db1).2 = (get_databases db).2)
    as (r1 & Hr1 & Hst1 & Hteam & Hty & Henv & Hsz & Hpds & Hseq & Hget).
  { subst db1. unfold create_request.
    rewrite (insert_request_within db id request now Hwidths), Hid. simpl.
    eexists. rewrite lookup_insert_eq. repeat (split; [done|]).
    unfold get_databases. simpl. do 3 f_equal.
    apply omap_ext_Forall.
    eapply Forall_impl; [exact (reachable_rows_derived db Hreach)|].
    intros d (r' & Hr' & _). unfold join_request. simpl.
    rewrite lookup_insert_ne; [done|]. intros Heq. rewrite <- Heq in Hr'.
    congruence. }
  assert (varchar 100 (db_name_for r1 (uuid4_hex e)) =
            Some (db_name_of (team_name request) (environment request)
                    (db_type request) (uuid4_hex e))) as Hname1.
  { unfold db_name_for. rewrite Hteam, Hty, Henv. by apply varchar_within. }
  assert (entry (provisioned_record db1 (request_id approval) r1
                   (db_name_of (team_name request) (environment request)
                      (db_type request) (uuid4_hex e)) e, r1) = new) as Hnew.
  { unfold entry, provisioned_record, new, host. simpl.
    by rewrite Hteam, Hty, Henv, Hsz, Hseq. }
  pose proof (get_databases_after_approve db1 approval e r1 who' _ Hrows1 Hr1 Hst1
                eq_refl Hwho Hname1) as Hperm.
  rewrite Hget, Hnew in Hperm. fold db2 in Hperm.
  pose proof (process_approval_approve db1 approval e r1 Hr1 Hst1 who' _ eq_refl
                Hwho Hname1) as Hpa.
  split; [by rewrite Hpa|]. split.
  { subst db2. rewrite Hpa. eexists. simpl. rewrite lookup_insert_eq. done. }
  clearbody db2. clear Hpa.
  rewrite !list_databases_eq. cbn [snd l_databases l_total_count l_total_monthly_cost].
  split; [done|]. split.
  - apply Permutation_length in Hperm. by rewrite Hperm.
  - rewrite (sum_costs_perm _ _ (fmap_Permutation e_estimated_monthly_cost _ _ Hperm)).
    rewrite fmap_cons, sum_costs_cons. simpl. lia.
Qed.

Lemma submit_approve_list_witness :
  let approval := scenario_decision "approve" in
  let db2 := (process_approval scenario_db approval scenario_env).1 in
  (process_approval scenario_db approval scenario_env).2 =
    inr {| resp_request_id := scenario_id; resp_status := "approved";
           resp_message := "Request approved successfully" |} ∧
  (∃ r, db_requests db2 !! scenario_id = Some r ∧ r_status r = "provisioned" ∧
        r_provisioned_at r = Some 4) ∧
  l_databases (list_databases db2).2 ≡ₚ
    [{| e_db_id := 1; e_db_name := "data-eng_prod_postgres_3f2b8c1d";
        e_db_type := "postgres"; e_environment := "prod";
        e_host := "db-cluster.example.com"; e_port := 5432;
        e_estimated_monthly_cost := 50000; e_status := "active";
        e_created_at := 3; e_team_name := "data-eng" |}] ∧
  l_total_count (list_databases db2).2 = 1%nat ∧
  l_total_monthly_cost (list_databases db2).2 = 50000.
Proof.
  apply (submit_approve_list empty_database scenario_request scenario_id 1
           "a@b.com" None scenario_env).
  - apply rwf_empty.
  - reflexivity.
  - vm_compute. repeat split; lia.
  - apply fits_within. vm_compute. lia.
  - vm_compute. lia.
Defined.

(** ** Decisions whose statements interleave *)

Lemma inserted_grows approval db db' at_pc :
  grows db db' → inserted approval db at_pc → inserted approval db' at_pc.
Proof.
  intros (_ & _ & Hpre). destruct at_pc; simpl; try done.
  intros (d & Hd & Hid). exists d. split; [|done]. by eapply elem_of_prefix.
Qed.

Lemma sched_step_cases st i now :
  (st.2 !! i = None ∧ sched_step st i now = st) ∨
  ∃ t, st.2 !! i = Some t ∧
       sched_step st i now =
         ((step (th_approval t) (th_hex t) now true st.1 (th_pc t)).1,
          <[i := {| th_approval := th_approval t; th_hex := th_hex t;
                    th_pc := (step (th_approval t) (th_hex t) now true st.1
                                (th_pc t)).2 |}]> st.2).
Proof.
  unfold sched_step. destruct (st.2 !! i) as [t|]; [|by left].
  right. exists t. split; [done|].
  by destruct (step (th_approval t) (th_hex t) now true st.1 (th_pc t)).
Qed.

Lemma sched_step_linked st i now :
  linked st.1 → all_inserted st →
  linked (sched_step st i now).1 ∧ all_inserted (sched_step st i now) ∧
  grows st.1 (sched_step st i now).1.
Proof.
  intros Hl Hall.
  destruct (sched_step_cases st i now) as [[_ ->]|(t & Ht & ->)].
  { split; [done|]. split; [done|apply grows_refl]. }
  pose proof (step_grows (th_approval t) (th_hex t) now true st.1 (th_pc t)) as Hg.
  assert (inserted (th_approval t) st.1 (th_pc t)) as Hins.
  { unfold all_inserted in Hall. rewrite Forall_forall in Hall.
    apply Hall. by eapply list_elem_of_lookup_2. }
  destruct (step_linked (th_approval t) (th_hex t) now true st.1 (th_pc t) Hl Hins)
    as [Hl' Hins'].
  split; [done|]. split; [|done].
  unfold all_inserted. simpl. apply Forall_insert; [|done].
  eapply Forall_impl; [exact Hall|]. intros t'. by apply inserted_grows.
Qed.

Lemma run_schedule_linked sched st :
  linked st.1 → all_inserted st →
  linked (run_schedule sched st).1 ∧ grows st.1 (run_schedule sched st).1.
Proof.
  revert st. induction sched as [|[i now] sched IH]; intros st Hl Hall.
  - split; [done|apply grows_refl].
  - unfold run_schedule in *. simpl.
    destruct (sched_step_linked st i now Hl Hall) as (Hl' & Hall' & Hg).
    destruct (IH _ Hl' Hall') as [Hl'' Hg'']. split; [done|].
    by eapply grows_trans.
Qed.

(** X15. However the statements of any number of decisions interleave on
    the one connection, a provisioned request always has its database
    row, no request is added, removed or changed in its submitted
    columns, and database rows are only appended. *)
Theorem interleaved_decisions_keep_rows db calls sched :
  linked db →
  let final := run_schedule sched (db, (λ c, spawn c.1 c.2) <$> calls) in
  linked final.1 ∧ grows db final.1.
Proof.
  intros Hl final. subst final.
  apply (run_schedule_linked sched (db, (λ c, spawn c.1 c.2) <$> calls)); [done|].
  unfold all_inserted. simpl. apply Forall_fmap. by apply Forall_true.
Qed.

Lemma interleaved_decisions_keep_rows_witness :
  let final :=
    run_schedule
      [(0%nat, 2); (1%nat, 2); (0%nat, 3); (1%nat, 3); (1%nat, 4); (0%nat, 5)]
      (scenario_db,
       (λ c, spawn c.1 c.2) <$>
         [(scenario_decision "approve", "3f2b8c1d9e4a4f6b8a7c5d2e1f0a9b8c");
          (scenario_decision "reject", "a1b2c3d4e5f64789a0b1c2d3e4f5a6b7")]) in
  linked final.1 ∧ grows scenario_db final.1.
Proof.
  apply (interleaved_decisions_keep_rows scenario_db).
  apply (create_request_consistent empty_database scenario_request scenario_id 1
           consistent_empty).
Defined.

Lemma step_passed approval hex now db at_pc r r' :
  db_requests db !! request_id approval = Some r' →
  accepted_by_store approval r hex →
  in_provisioning approval r at_pc →
  passed at_pc = true →
  passed (step approval hex now true db at_pc).2 = true.
Proof.
  intros Hr [_ Hname] Hprov.
  destruct at_pc as [| | |team ty env sz| | |]; simpl; try done.
  - unfold select_details. by rewrite Hr.
  - destruct Hprov as (Ha & -> & -> & ->).
    destruct (Hname Ha) as [name Hname']. unfold db_name_for in Hname'.
    unfold insert_provisioned_database. by rewrite Hname', Hr.
Qed.

Lemma step_in_provisioning approval hex now db at_pc r r' :
  db_requests db !! request_id approval = Some r' →
  same_submission r r' →
  in_provisioning approval r at_pc →
  in_provisioning approval r (step approval hex now true db at_pc).2.
Proof.
  intros Hr (Hteam & Hty & Henv & _) Hprov.
  destruct at_pc as [| | |team ty env sz| | |]; simpl; try done.
  - destruct (select_status _ _); [|done]. by case_decide.
  - destruct (update_decision _ _ _ _ _ _); [done|]. by case_decide.
  - unfold select_details. rewrite Hr. simpl. by rewrite Hteam, Hty, Henv.
  - destruct Hprov as (Ha & _).
    destruct (insert_provisioned_database _ _ _ _ _ _ _ _ _); done.
Qed.

Lemma sched_step_race id r st i now :
  race_invariant id r st → race_invariant id r (sched_step st i now).
Proof.
  intros ((r' & Hr' & Hs') & Hids & Hcase).
  destruct (sched_step_cases st i now) as [[_ ->]|(t & Ht & ->)].
  { split; [by exists r'|]. by split. }
  assert (request_id (th_approval t) = id ∧
          accepted_by_store (th_approval t) r (th_hex t) ∧
          in_provisioning (th_approval t) r (th_pc t)) as (Hid & Hacc & Hprov).
  { rewrite Forall_forall in Hids. apply Hids. by eapply list_elem_of_lookup_2. }
  rewrite <- Hid in Hr'.
  pose proof (step_grows (th_approval t) (th_hex t) now true st.1 (th_pc t))
    as (Hnone & Hsame & _).
  split; [|split]; simpl.
  - destruct (db_requests (step _ _ now true st.1 (th_pc t)).1 !! id) as [r''|]
      eqn:Hr''.
    + exists r''. split; [done|]. rewrite <- Hid in Hr''.
      eapply same_submission_trans; [exact Hs'|]. by eapply Hsame.
    + rewrite <- Hid in Hr''. apply Hnone in Hr''. congruence.
  - apply Forall_insert; [done|]. simpl. split; [done|]. split; [done|].
    by eapply step_in_provisioning.
  - destruct Hcase as [[Hpending Hbefore]|Hpassed].
    + assert (before_write (th_pc t) = true) as Hbt.
      { rewrite Forall_forall in Hbefore. apply Hbefore.
        by eapply list_elem_of_lookup_2. }
      destruct (th_pc t) eqn:Hpc; try done; simpl.
      * rewrite Hid, Hpending. simpl. left. split; [done|].
        by apply Forall_insert.
      * right. apply Exists_exists. eexists. split.
        { eapply list_elem_of_lookup_2. apply list_lookup_insert_eq.
          by eapply lookup_lt_Some. }
        simpl. destruct Hacc as [[who Hwho] _].
        unfold update_decision. rewrite Hwho. by case_decide.
    + right. apply Exists_exists in Hpassed as (t' & Hin & Hp').
      apply list_elem_of_lookup in Hin as [j Hj].
      apply Exists_exists.
      destruct (decide (i = j)) as [->|Hne].
      * eexists. split.
        { eapply list_elem_of_lookup_2. apply list_lookup_insert_eq.
          by eapply lookup_lt_Some. }
        simpl. rewrite Ht in Hj. injection Hj as ->.
        by eapply step_passed.
      * exists t'. split; [|done].
        eapply list_elem_of_lookup_2. by rewrite list_lookup_insert_ne.
Qed.

Lemma run_schedule_race id r sched st :
  race_invariant id r st → race_invariant id r (run_schedule sched st).
Proof.
  revert st. induction sched as [|[i now] sched IH]; intros st Hinv; [done|].
  unfold run_schedule in *. simpl. apply IH. by apply sched_step_race.
Qed.

(** X16. Decisions on one pending request never all fail: however their
    statements interleave (each accepted by the store: every approver
    fits its column, and so does the name generated for each approve),
    once every call has ended at least one of them has returned
    successfully. *)
Theorem interleaved_decisions_one_returns db id r calls sched :
  db_requests db !! id = Some r →
  r_status r = "pending" →
  calls ≠ [] →
  Forall (λ c, request_id c.1 = id ∧ accepted_by_store c.1 r c.2) calls →
  let final := run_schedule sched (db, (λ c, spawn c.1 c.2) <$> calls) in
  Forall (λ t, finished (th_pc t) = true) final.2 →
  Exists (λ t, returned t = true) final.2.
Proof.
  intros Hr Hpending Hne Hids final Hfin.
  assert (race_invariant id r final) as (_ & _ & Hcase).
  { apply run_schedule_race. split; [|split]; simpl.
    - exists r. split; [done|apply same_submission_refl].
    - apply Forall_fmap. eapply Forall_impl; [exact Hids|].
      by intros [a hex] [? ?].
    - left. split; [by apply select_status_Some; exists r|].
      apply Forall_fmap. by apply Forall_true. }
  assert (length final.2 = length calls) as Hlen.
  { subst final. clear. revert db calls.
    assert (∀ st, length (run_schedule sched st).2 = length st.2) as Hgen.
    { induction sched as [|[i now] sched IH]; intros st; [done|].
      unfold run_schedule in *. simpl. rewrite IH.
      destruct (sched_step_cases st i now) as [[_ ->]|(t & _ & ->)]; [done|].
      simpl. by rewrite length_insert. }
    intros db calls. rewrite Hgen. simpl. by rewrite length_fmap. }
  destruct Hcase as [[_ Hbefore]|Hpassed].
  - destruct final.2 as [|t ts] eqn:Hts.
    + destruct calls; [done|discriminate].
    + apply Forall_cons in Hfin as [Hf _]. apply Forall_cons in Hbefore as [Hb _].
      by destruct (th_pc t).
  - apply Exists_exists in Hpassed as (t & Hin & Hp).
    apply Exists_exists. exists t. split; [done|].
    rewrite Forall_forall in Hfin. specialize (Hfin t Hin).
    unfold returned. by destruct (th_pc t).
Qed.

Lemma interleaved_decisions_one_returns_witness :
  let final :=
    run_schedule
      [(0%nat, 2); (1%nat, 2); (0%nat, 3); (1%nat, 3); (1%nat, 4); (0%nat, 5);
       (0%nat, 6); (0%nat, 7)]
      (scenario_db,
       (λ c, spawn c.1 c.2) <$>
         [(scenario_decision "approve", "3f2b8c1d9e4a4f6b8a7c5d2e1f0a9b8c");
          (scenario_decision "reject", "a1b2c3d4e5f64789a0b1c2d3e4f5a6b7")]) in
  Exists (λ t, returned t = true) final.2.
Proof.
  apply (interleaved_decisions_one_returns scenario_db scenario_id scenario_row).
  - reflexivity.
  - reflexivity.
  - discriminate.
  - repeat constructor; try (intros _); apply fits_within; vm_compute; lia.
  - repeat constructor.
Defined.

(** ** The outcomes of a decision *)

Lemma step_no_internal_error approval hex now accepted db at_pc :
  call_invariant approval db at_pc → internal_error at_pc = false →
  call_invariant approval (step approval hex now accepted db at_pc).1
    (step approval hex now accepted db at_pc).2 ∧
  internal_error (step approval hex now accepted db at_pc).2 = false.
Proof.
  intros Hcall Hclean.
  destruct at_pc as [| | |team ty env sz| | |]; simpl in *; destruct accepted;
    simpl; try done.
  - destruct (select_status _ _) as [s|] eqn:Hs; [|done].
    destruct (decide (s ≠ "pending")) as [|Hst]; [done|].
    split; [|done]. simpl.
    destruct (decide (s = "pending")) as [->|Hne]; [done|by destruct Hst].
  - apply select_status_Some in Hcall as (r & Hr & Hst).
    unfold update_decision.
    destruct (varchar 100 (approver approval)) as [who|]; [|done].
    destruct (decide (action approval = "approve")) as [Ha|Ha]; [|done].
    split; [|done]. unfold call_invariant, select_status, new_status.
    simpl. rewrite lookup_alter_eq, Hr. simpl. by rewrite decide_True.
  - apply select_status_Some in Hcall as (r & Hr & Hst).
    unfold select_details. rewrite Hr. simpl. split; [|done].
    apply select_status_Some. by exists r.
  - apply select_status_Some in Hcall as (r & Hr & Hst).
    unfold insert_provisioned_database.
    destruct (varchar 100 _) as [name|]; [|done].
    rewrite Hr. simpl. split; [|done].
    apply select_status_Some. by exists r.
Qed.

Lemma run_call_no_internal_error approval hex inputs db at_pc :
  call_invariant approval db at_pc → internal_error at_pc = false →
  internal_error (run_call approval hex inputs db at_pc).2 = false.
Proof.
  revert db at_pc. induction inputs as [|[now accepted] inputs IH];
    intros db at_pc Hcall Hclean; [done|]. simpl.
  destruct (step_no_internal_error approval hex now accepted db at_pc Hcall Hclean)
    as [Hcall' Hclean'].
  destruct (step approval hex now accepted db at_pc) as [db' pc'].
  by apply IH.
Qed.

(** X17. A decision has three outcomes when every statement is accepted:
    404 with the state unchanged when the request is not stored, 400 with
    the state unchanged when it is stored and not pending, and success
    when it is pending; when the request is pending and the approver or
    the generated name is refused by its column, the call raises that
    refusal instead.  The provisioning never fails on its own: the row
    it reads back is there, so the unpacking of [fetchone()] never raises
    and the INSERT never violates the foreign key, whichever statements
    the store refuses. *)
Theorem process_approval_outcomes db approval e :
  ((db_requests db !! request_id approval = None ∧
    process_approval db approval e =
      (db, inl (HTTPException 404 "Request not found"))) ∨
   (∃ r, db_requests db !! request_id approval = Some r ∧
         r_status r ≠ "pending" ∧
         process_approval db approval e =
           (db, inl (HTTPException 400 ("Request already " +:+ r_status r)))) ∨
   (∃ r db', db_requests db !! request_id approval = Some r ∧
             r_status r = "pending" ∧
             ((accepted_by_store approval r (uuid4_hex e) ∧
               process_approval db approval e =
                 (db', inr (decision_response approval))) ∨
              (¬ accepted_by_store approval r (uuid4_hex e) ∧
               process_approval db approval e = (db', inl too_long))))) ∧
  (∀ hex inputs,
     internal_error (run_call approval hex inputs db AtSelectStatus).2 = false).
Proof.
  split.
  - destruct (process_approval_outcome db approval e)
      as [?|r ? ?|r ? ? Hwho|r who ? ? Ha Hwho Hname|r who name ? ? Ha Hwho Hname
         |r who ? ? Ha Hwho].
    + by left.
    + right. left. by exists r.
    + right. right. eexists r, _. repeat (split; [done|]). right. split; [|done].
      intros [[? Hfits] _]. congruence.
    + right. right. eexists r, _. repeat (split; [done|]). right. split; [|done].
      intros [_ Hfits]. destruct (Hfits Ha) as [? Hfits']. congruence.
    + right. right. eexists r, _. repeat (split; [done|]). left. split; [|done].
      split; [by exists who|]. intros _. by exists name.
    + right. right. eexists r, _. repeat (split; [done|]). left. split; [|done].
      split; [by exists who|]. intros Ha'. by destruct Ha.
  - intros hex inputs. by apply run_call_no_internal_error.
Qed.

(** X18. What a refused value leaves behind.  A decision on a pending
    request whose approver the [approver] column refuses raises and
    changes nothing: the request stays pending.  An approve whose
    generated name the [db_name] column refuses raises after the decision
    UPDATE: the request is left [approved], with the approver, the notes
    and [approved_at] recorded and [provisioned_at] unset as before, and
    no database row is added. *)
Theorem refused_value_outcome db approval e r :
  db_requests db !! request_id approval = Some r →
  r_status r = "pending" →
  (¬ fits 100 (approver approval) →
     process_approval db approval e = (db, inl too_long)) ∧
  (fits 100 (approver approval) → action approval = "approve" →
   ¬ fits 100 (db_name_for r (uuid4_hex e)) →
     ∃ db' r',
       process_approval db approval e = (db', inl too_long) ∧
       db_requests db' !! request_id approval = Some r' ∧
       r_status r' = "approved" ∧
       r_approver r' = varchar 100 (approver approval) ∧
       r_approval_notes r' = notes approval ∧
       r_approved_at r' = Some (t_decision e) ∧
       r_provisioned_at r' = r_provisioned_at r ∧
       provisioned_databases db' = provisioned_databases db).
Proof.
  intros Hr Hst. split.
  - intros Hno. apply (process_approval_approver_refused db approval e r Hr Hst).
    apply eq_None_not_Some. exact Hno.
  - intros [who Hwho] Ha Hno. eexists _, _. split.
    + apply (process_approval_name_refused db approval e r Hr Hst who Ha Hwho).
      apply eq_None_not_Some. exact Hno.
    + simpl. rewrite lookup_insert_eq. by repeat (split; [done|]).
Qed.

Lemma refused_value_outcome_witness :
  ∃ db' r',
    process_approval wide_team_db (scenario_decision "approve") scenario_env =
      (db', inl too_long) ∧
    db_requests db' !! scenario_id = Some r' ∧
    r_status r' = "approved" ∧
    r_approver r' = Some "a@b.com" ∧
    r_approval_notes r' = None ∧
    r_approved_at r' = Some 2 ∧
    r_provisioned_at r' = None ∧
    provisioned_databases db' = [].
Proof.
  destruct (refused_value_outcome wide_team_db (scenario_decision "approve")
              scenario_env wide_team_row) as [_ Hname];
    [reflexivity | reflexivity |].
  apply Hname.
  - apply fits_within. vm_compute. lia.
  - reflexivity.
  - unfold fits. vm_compute. intros [name Hsome]. discriminate Hsome.
Defined.
